(** * Dots2Detector: tool-call extraction for the DOTS-2 format

    A shallow embedding of
    [python/sglang/srt/function_call/dots_detector.py] and the statements
    of its specification, settled against the embedding.

    Conventions.
    - A Python [str] is a list of characters ([str] below); a character is
      a code point below 256.
    - [s.find(sub)] returns [None] where Python returns [-1].
    - Exceptions are values of [exn]; a computation that may raise returns
      a [result].
    - [json.loads] and [json.dumps] belong to the Python library: the
      detector is defined over any pair of them (Section [Detector]).
      [json_loads_ref] and [json_dumps_ref] are a reader and a printer for
      the JSON texts whose numbers are integer literals and whose strings
      carry no [\u] escape; they instantiate the section wherever a
      statement is evaluated on a concrete text. *)

From Stdlib Require Import Ascii String DecimalString.
From Stdlib Require Import ZArith Lia Bool Arith List Sorted.
Import ListNotations.
Local Open Scope Z_scope.

Set Implicit Arguments.
Set Warnings "-register-all,-notation-for-abbreviation".

(** ** Python strings *)

Definition str := list ascii.

(** A literal. *)
Definition txt (s : string) : str := list_ascii_of_string s.

(** The double quote. *)
Notation dquote := (Ascii false true false false false true false false)
  (only parsing).

(** A literal of a JSON text, written with ['] for the double quote. *)
Definition json_txt (s : string) : str :=
  map (fun c => match c with "'"%char => dquote | _ => c end) (txt s).

Definition ascii_eqb (a b : ascii) : bool := Ascii.eqb a b.

Fixpoint str_eqb (a b : str) : bool :=
  match a, b with
  | [], [] => true
  | x :: a', y :: b' => ascii_eqb x y && str_eqb a' b'
  | _, _ => false
  end.

(** [s.startswith(p)] *)
Fixpoint startswith (p s : str) : bool :=
  match p, s with
  | [], _ => true
  | _ :: _, [] => false
  | a :: p', b :: s' => ascii_eqb a b && startswith p' s'
  end.

(** [s.find(sub)], the index of the first occurrence. *)
Fixpoint find (sub s : str) : option nat :=
  if startswith sub s then Some 0%nat
  else match s with
       | [] => None
       | _ :: s' => option_map S (find sub s')
       end.

(** [s.find(sub, start)] for [0 <= start]. *)
Definition find_from (sub s : str) (start : nat) : option nat :=
  option_map (Nat.add start) (find sub (skipn start s)).

(** [sub in s] *)
Definition contains (sub s : str) : bool :=
  match find sub s with Some _ => true | None => false end.

(** [s[a:b]] for [0 <= a] and [0 <= b]. *)
Definition slice (s : str) (a b : nat) : str := firstn (b - a) (skipn a s).

(** [s.replace(old, new)] for a non-empty [old]: occurrences are replaced
    from the left and do not overlap; [skip] counts the characters of the
    occurrence being replaced that are still to be passed over. *)
Fixpoint replace_from (old new : str) (skip : nat) (s : str) : str :=
  match s with
  | [] => []
  | c :: s' =>
      match skip with
      | S k => replace_from old new k s'
      | O => if startswith old s
             then new ++ replace_from old new (length old - 1) s'
             else c :: replace_from old new 0 s'
      end
  end.

Definition replace (old new s : str) : str := replace_from old new 0 s.

(** [c.isspace()] on code points below 256; it is also the class [\s] of
    the [re] module on [str] patterns. *)
Definition isspace (c : ascii) : bool :=
  let n := nat_of_ascii c in
  ((9 <=? n) && (n <=? 13) || (28 <=? n) && (n <=? 32)
   || (n =? 133) || (n =? 160))%nat.

Fixpoint lstrip (s : str) : str :=
  match s with
  | c :: s' => if isspace c then lstrip s' else s
  | [] => []
  end.

Definition rstrip (s : str) : str := rev (lstrip (rev s)).

(** [s.strip()] *)
Definition strip (s : str) : str := rstrip (lstrip s).

(** ** JSON values, as [json.loads] builds them

    A [dict] keeps its keys in insertion order; [None] is [JNull]. *)

Inductive json : Type :=
| JNull
| JBool (b : bool)
| JInt (n : Z)
| JString (s : str)
| JList (l : list json)
| JDict (d : list (str * json)).

Definition pydict := list (str * json).

(** [d.get(k)], as an option. *)
Fixpoint dict_lookup (k : str) (d : pydict) : option json :=
  match d with
  | [] => None
  | (k', v) :: d' => if str_eqb k k' then Some v else dict_lookup k d'
  end.

(** [d[k] = v]: an existing key keeps its place. *)
Fixpoint dict_set (k : str) (v : json) (d : pydict) : pydict :=
  match d with
  | [] => [(k, v)]
  | (k', v') :: d' =>
      if str_eqb k k' then (k', v) :: d' else (k', v') :: dict_set k v d'
  end.

(** Truth value of a Python object, as in [x if v else y]. *)
Definition truthy (v : json) : bool :=
  match v with
  | JNull => false
  | JBool b => b
  | JInt n => negb (n =? 0)
  | JString s => match s with [] => false | _ => true end
  | JList l => match l with [] => false | _ => true end
  | JDict d => match d with [] => false | _ => true end
  end.

(** ** Exceptions *)

Inductive exn : Type :=
| JSONDecodeError
| AttributeError
| IndexError
| ValidationError
| LibraryError.   (* any other exception leaving the json library *)

Inductive result (A : Type) : Type :=
| Ok (a : A)
| Raise (e : exn).
Arguments Ok {A} a.
Arguments Raise {A} e.

Definition is_decode_error (e : exn) : bool :=
  match e with JSONDecodeError => true | _ => false end.

(** [d.get(key, default)] on a [dict]. *)
Definition dict_get (d : pydict) (key : str) (default : json) : json :=
  match dict_lookup key d with
  | Some v => v
  | None => default
  end.

(** [obj.get(key, default)]: only a [dict] has the method. *)
Definition py_get (obj : json) (key : str) (default : json) : result json :=
  match obj with
  | JDict d => Ok (dict_get d key default)
  | _ => Raise AttributeError
  end.

(** Index of a Python list access [l[i]]: negative indices count from the
    end. *)
Definition py_index {A : Type} (l : list A) (i : Z) : option nat :=
  let n := Z.of_nat (length l) in
  if (0 <=? i) && (i <? n) then Some (Z.to_nat i)
  else if (i <? 0) && (- n <=? i) then Some (Z.to_nat (n + i))
  else None.

Fixpoint list_set {A : Type} (k : nat) (v : A) (l : list A) : list A :=
  match l, k with
  | [], _ => []
  | _ :: l', O => v :: l'
  | x :: l', S k' => x :: list_set k' v l'
  end.

(** [l[i]] *)
Definition py_getitem {A : Type} (l : list A) (i : Z) : result A :=
  match py_index l i with
  | Some k => match nth_error l k with Some x => Ok x | None => Raise IndexError end
  | None => Raise IndexError
  end.

(** [l[i] = v] *)
Definition py_setitem {A : Type} (l : list A) (i : Z) (v : A) : result (list A) :=
  match py_index l i with
  | Some k => Ok (list_set k v l)
  | None => Raise IndexError
  end.

(** [while len(l) <= i: l.append(d)] *)
Definition ensure_entries {A : Type} (l : list A) (i : Z) (d : A) : list A :=
  l ++ repeat d (Z.to_nat (i + 1 - Z.of_nat (length l))).

(** ** A reader and a printer for JSON texts

    [json_loads_ref] follows the decoder of the [json] module on its
    grammar: white space is space, tab, line feed and carriage return; an
    object keeps the last value of a repeated key; a text after the value
    is an error.  A number with a fraction or an exponent, a [\u] escape
    and the constants [NaN] and [Infinity] are outside this reader, which
    refuses them.  [json_dumps_ref] prints with the default separators
    [", "] and [": "] and escapes every character outside the printable
    ASCII range, as [ensure_ascii] does. *)

Module JsonRef.

Definition is_ws (c : ascii) : bool :=
  let n := nat_of_ascii c in
  ((n =? 32) || (n =? 9) || (n =? 10) || (n =? 13))%nat.

Fixpoint skip_ws (s : str) : str :=
  match s with
  | c :: s' => if is_ws c then skip_ws s' else s
  | [] => []
  end.

Definition digit_of (c : ascii) : option Z :=
  let n := nat_of_ascii c in
  if ((48 <=? n) && (n <=? 57))%nat then Some (Z.of_nat (n - 48)) else None.

Definition unescape (c : ascii) : option ascii :=
  match c with
  | dquote => Some dquote
  | "\"%char => Some "\"%char
  | "/"%char => Some "/"%char
  | "b"%char => Some (ascii_of_nat 8)
  | "f"%char => Some (ascii_of_nat 12)
  | "n"%char => Some (ascii_of_nat 10)
  | "r"%char => Some (ascii_of_nat 13)
  | "t"%char => Some (ascii_of_nat 9)
  | _ => None
  end.

(** The characters of a string after its opening quote, and the rest. *)
Fixpoint read_string (s : str) (acc : str) : option (str * str) :=
  match s with
  | [] => None
  | dquote :: r => Some (rev acc, r)
  | "\"%char :: [] => None
  | "\"%char :: e :: r =>
      match unescape e with
      | Some c => read_string r (c :: acc)
      | None => None
      end
  | c :: r =>
      if (nat_of_ascii c <? 32)%nat then None else read_string r (c :: acc)
  end.

Fixpoint read_digits (s : str) (acc : Z) : Z * str :=
  match s with
  | c :: r =>
      match digit_of c with
      | Some d => read_digits r (10 * acc + d)
      | None => (acc, s)
      end
  | [] => (acc, s)
  end.

(** An integer literal [0] or [[1-9][0-9]*]; refused when a fraction or
    an exponent follows. *)
Definition read_nat_literal (s : str) : option (Z * str) :=
  match s with
  | c :: r =>
      match digit_of c with
      | Some d =>
          let '(n, rest) := if d =? 0 then (0, r) else read_digits r d in
          match rest with
          | "."%char :: _ | "e"%char :: _ | "E"%char :: _ => None
          | _ => Some (n, rest)
          end
      | None => None
      end
  | [] => None
  end.

Fixpoint read_value (fuel : nat) (s : str) : option (json * str) :=
  match fuel with
  | O => None
  | S f =>
      match s with
      | dquote :: r =>
          match read_string r [] with
          | Some (k, r') => Some (JString k, r')
          | None => None
          end
      | "{"%char :: r =>
          match skip_ws r with
          | "}"%char :: r' => Some (JDict [], r')
          | dquote :: r' =>
              match read_members f r' [] with
              | Some (d, r'') => Some (JDict d, r'')
              | None => None
              end
          | _ => None
          end
      | "["%char :: r =>
          match skip_ws r with
          | "]"%char :: r' => Some (JList [], r')
          | r' =>
              match read_elements f r' [] with
              | Some (l, r'') => Some (JList l, r'')
              | None => None
              end
          end
      | "n"%char :: "u"%char :: "l"%char :: "l"%char :: r => Some (JNull, r)
      | "t"%char :: "r"%char :: "u"%char :: "e"%char :: r => Some (JBool true, r)
      | "f"%char :: "a"%char :: "l"%char :: "s"%char :: "e"%char :: r =>
          Some (JBool false, r)
      | "-"%char :: r =>
          match read_nat_literal r with
          | Some (n, r') => Some (JInt (- n), r')
          | None => None
          end
      | _ =>
          match read_nat_literal s with
          | Some (n, r') => Some (JInt n, r')
          | None => None
          end
      end
  end

(** The members of an object, from the first character of a key (after
    its opening quote). *)
with read_members (fuel : nat) (s : str) (acc : pydict) : option (pydict * str) :=
  match fuel with
  | O => None
  | S f =>
      match read_string s [] with
      | Some (k, r) =>
          match skip_ws r with
          | ":"%char :: r1 =>
              match read_value f (skip_ws r1) with
              | Some (v, r2) =>
                  let acc' := dict_set k v acc in
                  match skip_ws r2 with
                  | "}"%char :: r3 => Some (acc', r3)
                  | ","%char :: r3 =>
                      match skip_ws r3 with
                      | dquote :: r4 => read_members f r4 acc'
                      | _ => None
                      end
                  | _ => None
                  end
              | None => None
              end
          | _ => None
          end
      | None => None
      end
  end

(** The elements of an array, from the first character of an element. *)
with read_elements (fuel : nat) (s : str) (acc : list json) : option (list json * str) :=
  match fuel with
  | O => None
  | S f =>
      match read_value f s with
      | Some (v, r) =>
          match skip_ws r with
          | "]"%char :: r' => Some (rev (v :: acc), r')
          | ","%char :: r' => read_elements f (skip_ws r') (v :: acc)
          | _ => None
          end
      | None => None
      end
  end.

(** [json.loads(s)] *)
Definition json_loads_ref (s : str) : result json :=
  match read_value (2 * length s + 2) (skip_ws s) with
  | Some (v, r) =>
      match skip_ws r with
      | [] => Ok v
      | _ => Raise JSONDecodeError
      end
  | None => Raise JSONDecodeError
  end.

Definition hex_digit (n : nat) : ascii :=
  if (n <? 10)%nat then ascii_of_nat (48 + n) else ascii_of_nat (87 + n).

Definition escape_char (c : ascii) : str :=
  let n := nat_of_ascii c in
  match c with
  | dquote => ["\"%char; dquote]
  | "\"%char => txt "\\"
  | _ =>
      if (n =? 10)%nat then txt "\n"
      else if (n =? 13)%nat then txt "\r"
      else if (n =? 9)%nat then txt "\t"
      else if (n =? 8)%nat then txt "\b"
      else if (n =? 12)%nat then txt "\f"
      else if ((32 <=? n) && (n <=? 126))%nat then [c]
      else txt "\u00" ++ [hex_digit (n / 16); hex_digit (n mod 16)]
  end.

Definition quote (s : str) : str :=
  [dquote] ++ flat_map escape_char s ++ [dquote].

Fixpoint join (sep : str) (l : list str) : str :=
  match l with
  | [] => []
  | [x] => x
  | x :: l' => x ++ sep ++ join sep l'
  end.

Definition print_int (n : Z) : str :=
  txt (NilZero.string_of_int (Z.to_int n)).

(** [json.dumps(v)] *)
Fixpoint json_dumps_ref (v : json) : str :=
  match v with
  | JNull => txt "null"
  | JBool true => txt "true"
  | JBool false => txt "false"
  | JInt n => print_int n
  | JString s => quote s
  | JList l => txt "[" ++ join (txt ", ") (map json_dumps_ref l) ++ txt "]"
  | JDict d =>
      txt "{"
      ++ join (txt ", ")
           (map (fun kv => quote (fst kv) ++ txt ": " ++ json_dumps_ref (snd kv)) d)
      ++ txt "}"
  end.

End JsonRef.

(** ** The data of the detector *)

(** Modelled from the spec: [ToolCallItem] is declared in [core_types],
    outside the sources at hand.  The spec (section 3) gives it a tool
    index, an optional name and a parameter text. *)
Record ToolCallItem : Type := mkToolCallItem {
  tool_index : Z;
  name : option str;
  parameters : str
}.

(** Modelled from the spec: construction of a [ToolCallItem] from Python
    values.  The name of the declaration is optional text: [None] and a
    string fit it, any other value is refused by the declaration. *)
Definition ToolCallItem_new (idx : Z) (nm : json) (params : str)
  : result ToolCallItem :=
  match nm with
  | JNull => Ok (mkToolCallItem idx None params)
  | JString s => Ok (mkToolCallItem idx (Some s) params)
  | _ => Raise ValidationError
  end.

(** The name that an item built from [nm] carries. *)
Definition name_of (nm : json) : option str :=
  match nm with
  | JString s => Some s
  | _ => None
  end.

(** The values that fit the name of an item. *)
Definition fits_name (nm : json) : bool :=
  match nm with
  | JNull | JString _ => true
  | _ => false
  end.

(** Modelled from the spec: [StreamingParseResult] ([core_types]) holds
    the plain text and the calls of one extraction step; its [calls]
    default to the empty list. *)
Record StreamingParseResult : Type := mkResult {
  normal_text : str;
  calls : list ToolCallItem
}.

(** The attributes of a detector instance. *)
Record DetectorState : Type := mkState {
  _buffer : str;
  prev_tool_call_arr : list pydict;
  current_tool_id : Z;
  current_tool_name_sent : bool;
  streamed_args_for_tool : list str;
  _last_arguments : str;
  _tool_indices : option (list (str * Z))
}.

Definition set_buffer (v : str) (st : DetectorState) : DetectorState :=
  mkState v (prev_tool_call_arr st) (current_tool_id st)
    (current_tool_name_sent st) (streamed_args_for_tool st)
    (_last_arguments st) (_tool_indices st).

Definition set_prev_tool_call_arr (v : list pydict) (st : DetectorState) :=
  mkState (_buffer st) v (current_tool_id st)
    (current_tool_name_sent st) (streamed_args_for_tool st)
    (_last_arguments st) (_tool_indices st).

Definition set_current_tool_id (v : Z) (st : DetectorState) :=
  mkState (_buffer st) (prev_tool_call_arr st) v
    (current_tool_name_sent st) (streamed_args_for_tool st)
    (_last_arguments st) (_tool_indices st).

Definition set_current_tool_name_sent (v : bool) (st : DetectorState) :=
  mkState (_buffer st) (prev_tool_call_arr st) (current_tool_id st)
    v (streamed_args_for_tool st)
    (_last_arguments st) (_tool_indices st).

Definition set_streamed_args_for_tool (v : list str) (st : DetectorState) :=
  mkState (_buffer st) (prev_tool_call_arr st) (current_tool_id st)
    (current_tool_name_sent st) v
    (_last_arguments st) (_tool_indices st).

Definition set_last_arguments (v : str) (st : DetectorState) :=
  mkState (_buffer st) (prev_tool_call_arr st) (current_tool_id st)
    (current_tool_name_sent st) (streamed_args_for_tool st)
    v (_tool_indices st).

Definition set_tool_indices (v : option (list (str * Z))) (st : DetectorState) :=
  mkState (_buffer st) (prev_tool_call_arr st) (current_tool_id st)
    (current_tool_name_sent st) (streamed_args_for_tool st)
    (_last_arguments st) v.

(** Modelled from the spec: the attributes after [__init__].  The base
    class constructor is outside the sources at hand; the spec (section 3)
    gives an empty pending buffer, empty per-call lists and an unset
    name flag.  [_last_arguments] and [current_tool_id] are set by
    [Dots2Detector.__init__]; [_tool_indices] is not an attribute yet. *)
Definition init_state : DetectorState :=
  mkState [] [] (-1) false [] [] None.

(** The delimiters set by [Dots2Detector.__init__]. *)
Definition bot_token : str := Eval cbv in txt "<dots_function_call>".
Definition eot_token : str := Eval cbv in txt "</dots_function_call>".

(** ** State and exceptions

    A method body runs on a frame: the instance [self] and the local list
    [calls].  An exception leaves the frame as it was when it was
    raised. *)

Record frame : Type := mkFrame {
  self : DetectorState;
  local_calls : list ToolCallItem
}.

Definition M (A : Type) : Type := frame -> result A * frame.

Definition ret {A : Type} (a : A) : M A := fun fr => (Ok a, fr).

Definition bind {A B : Type} (m : M A) (k : A -> M B) : M B :=
  fun fr =>
    match m fr with
    | (Ok a, fr') => k a fr'
    | (Raise e, fr') => (Raise e, fr')
    end.

Definition lift {A : Type} (r : result A) : M A := fun fr => (r, fr).

Definition get_self : M DetectorState := fun fr => (Ok (self fr), fr).

Definition modify_self (f : DetectorState -> DetectorState) : M unit :=
  fun fr => (Ok tt, mkFrame (f (self fr)) (local_calls fr)).

Definition get_calls : M (list ToolCallItem) :=
  fun fr => (Ok (local_calls fr), fr).

(** [calls.append(item)] *)
Definition append_call (item : ToolCallItem) : M unit :=
  fun fr => (Ok tt, mkFrame (self fr) (local_calls fr ++ [item])).

Definition when (b : bool) (m : M unit) : M unit :=
  if b then m else ret tt.

(** [try: body / except json.JSONDecodeError: handler] *)
Definition try_except_decode {A : Type} (body handler : M A) : M A :=
  fun fr =>
    match body fr with
    | (Raise JSONDecodeError, fr') => handler fr'
    | r => r
    end.

Declare Scope py_scope.
Delimit Scope py_scope with py.
Notation "x <- m ;; k" := (bind m (fun x => k))
  (at level 61, m at next level, right associativity) : py_scope.
Notation "m ;;; k" := (bind m (fun _ => k))
  (at level 61, right associativity) : py_scope.
Local Open Scope py_scope.

Definition result_bind {A B : Type} (r : result A) (k : A -> result B) : result B :=
  match r with
  | Ok a => k a
  | Raise e => Raise e
  end.

Notation "'let*' x ':=' r 'in' k" := (result_bind r (fun x => k))
  (at level 10, x name, r at level 100, k at level 200) : py_scope.

(** ** The regular expression

    [re.findall(r"<dots_function_call>\s*(.*?)\s*</dots_function_call>",
    text, re.DOTALL)]: the scan finds the first opening delimiter, then
    the first closing delimiter after it; the group is the text between
    them without the white space at its ends (the first [\s*] is greedy,
    [.*?] is lazy and the closing delimiter starts with a character that
    is no white space); the scan goes on after the closing delimiter.  An
    opening delimiter that no closing delimiter follows matches nothing.
    [fuel] bounds the number of matches. *)
Fixpoint findall_from (fuel : nat) (text : str) : list str :=
  match fuel with
  | O => []
  | S fuel' =>
      match find bot_token text with
      | None => []
      | Some p =>
          let rest := skipn (p + length bot_token) text in
          match find eot_token rest with
          | None => []
          | Some e =>
              strip (firstn e rest)
              :: findall_from fuel' (skipn (e + length eot_token) rest)
          end
      end
  end.

Definition findall_func_call_regex (text : str) : list str :=
  findall_from (length text) text.

(** ** The detector *)

Section Detector.

Variable Tool : Type.

(** [json.loads] and [json.dumps] *)
Variable json_loads : str -> result json.
Variable json_dumps : json -> str.

(** Helpers of the base class, outside the sources at hand. *)
Variable _get_tool_indices : list Tool -> list (str * Z).
Variable parse_base_json : json -> list Tool -> result (list ToolCallItem).

Definition has_tool_call (text : str) : bool := contains bot_token text.

(** Modelled from the spec: [_is_complete_json] ([utils], outside the
    sources at hand) attempts to parse the candidate as a JSON value and
    is true iff it parses without error (section 4.4). *)
Definition _is_complete_json (candidate : str) : bool :=
  match json_loads candidate with
  | Ok _ => true
  | Raise _ => false
  end.

(** The body of the loop of [detect_and_parse] for one match. *)
Definition parse_match (tools : list Tool) (match_result : str)
  : result (list ToolCallItem) :=
  let* func_call_json := json_loads (strip match_result) in
  let* func_name := py_get func_call_json (txt "name") JNull in
  let* func_args := py_get func_call_json (txt "arguments") (JDict []) in
  let match_result_obj :=
    JDict [(txt "name", func_name); (txt "parameters", func_args)] in
  parse_base_json match_result_obj tools.

Fixpoint parse_matches (tools : list Tool) (match_results : list str)
    (calls : list ToolCallItem) : result (list ToolCallItem) :=
  match match_results with
  | [] => Ok calls
  | match_result :: rest =>
      let* items := parse_match tools match_result in
      parse_matches tools rest (calls ++ items)
  end.

Definition detect_and_parse (text : str) (tools : list Tool)
  : StreamingParseResult :=
  let idx := find bot_token text in
  let normal_text :=
    match idx with
    | Some i => strip (firstn i text)
    | None => text
    end in
  if negb (contains bot_token text) then mkResult normal_text []
  else
    let match_results := findall_func_call_regex text in
    match parse_matches tools match_results [] with
    | Ok calls => mkResult normal_text calls
    | Raise _ => mkResult text []
    end.

(** [json.dumps(func_args) if func_args else the empty string] *)
Definition args_text (func_args : json) : str :=
  if truthy func_args then json_dumps func_args else [].

(** The two [while] loops that extend the tracking lists. *)
Definition ensure_tracking : M unit :=
  modify_self (fun st =>
    set_prev_tool_call_arr
      (ensure_entries (prev_tool_call_arr st) (current_tool_id st) []) st) ;;;
  modify_self (fun st =>
    set_streamed_args_for_tool
      (ensure_entries (streamed_args_for_tool st) (current_tool_id st) []) st).

(** Lines 141-144: the tracking lists of the first call, when the
    closing delimiter is in the buffer. *)
Definition init_tracking_complete : M unit :=
  st <- get_self ;;
  when (current_tool_id st =? -1)
    (modify_self (fun st =>
       set_streamed_args_for_tool [[]]
         (set_prev_tool_call_arr [] (set_current_tool_id 0 st)))).

(** Lines 153-175: the item of a complete call, its snapshot, and the
    attributes made ready for the next call. *)
Definition send_complete (current_text : str) (end_idx : nat)
    (func_name func_args : json) : M StreamingParseResult :=
  st <- get_self ;;
  item <- lift (ToolCallItem_new (current_tool_id st) func_name
                  (args_text func_args)) ;;
  append_call item ;;;
  arr <- lift (py_setitem (prev_tool_call_arr st) (current_tool_id st)
                 [(txt "name", func_name); (txt "arguments", func_args)]) ;;
  modify_self (set_prev_tool_call_arr arr) ;;;
  modify_self
    (set_buffer (skipn (end_idx + length eot_token) current_text)) ;;;
  modify_self (fun st => set_current_tool_id (current_tool_id st + 1) st) ;;;
  modify_self (set_last_arguments []) ;;;
  modify_self (set_current_tool_name_sent false) ;;;
  cs <- get_calls ;;
  ret (mkResult [] cs).

(** The branch taken when the closing delimiter is in the buffer. *)
Definition complete_call (current_text : str) (start_idx end_idx : nat)
  : M StreamingParseResult :=
  let json_content :=
    strip (slice current_text (start_idx + length bot_token)%nat end_idx) in
  try_except_decode
    (func_call_json <- lift (json_loads json_content) ;;
     func_name <- lift (py_get func_call_json (txt "name") JNull) ;;
     func_args <- lift (py_get func_call_json (txt "arguments") (JDict [])) ;;
     init_tracking_complete ;;;
     ensure_tracking ;;;
     send_complete current_text end_idx func_name func_args)
    (cs <- get_calls ;; ret (mkResult [] cs)).

(** Lines 193-197: the tracking lists of the first call, while the
    closing delimiter is awaited. *)
Definition init_tracking_partial : M unit :=
  st <- get_self ;;
  when (current_tool_id st =? -1)
    (modify_self (fun st =>
       set_current_tool_name_sent false
         (set_streamed_args_for_tool [[]]
            (set_prev_tool_call_arr [] (set_current_tool_id 0 st))))).

(** Lines 205-217: the name item of a call that is still streaming. *)
Definition send_name (func_name : json) : M unit :=
  st <- get_self ;;
  when (negb (current_tool_name_sent st))
    (item <- lift (ToolCallItem_new (current_tool_id st) func_name []) ;;
     append_call item ;;;
     modify_self (set_current_tool_name_sent true) ;;;
     arr <- lift (py_setitem (prev_tool_call_arr st) (current_tool_id st)
                    [(txt "name", func_name); (txt "arguments", JDict [])]) ;;
     modify_self (set_prev_tool_call_arr arr)).

(** Lines 219-243: the argument increment of a call that is still
    streaming. *)
Definition stream_arguments (func_args : json) : M unit :=
  st <- get_self ;;
  let args_str := args_text func_args in
  let argument_diff :=
    if startswith (_last_arguments st) args_str
    then skipn (length (_last_arguments st)) args_str
    else args_str in
  when (match argument_diff with [] => false | _ => true end)
    (item <- lift (ToolCallItem_new (current_tool_id st) JNull argument_diff) ;;
     append_call item ;;;
     modify_self (set_last_arguments (_last_arguments st ++ argument_diff)) ;;;
     streamed <- lift (py_getitem (streamed_args_for_tool st) (current_tool_id st)) ;;
     sarr <- lift (py_setitem (streamed_args_for_tool st) (current_tool_id st)
                     (streamed ++ argument_diff)) ;;
     modify_self (set_streamed_args_for_tool sarr) ;;;
     st <- get_self ;;
     snapshot <- lift (py_getitem (prev_tool_call_arr st) (current_tool_id st)) ;;
     arr <- lift (py_setitem (prev_tool_call_arr st) (current_tool_id st)
                    (dict_set (txt "arguments") func_args snapshot)) ;;
     modify_self (set_prev_tool_call_arr arr)).

(** The branch taken while the closing delimiter is awaited. *)
Definition partial_call (current_text : str) (start_idx : nat)
  : M StreamingParseResult :=
  let json_start := (start_idx + length bot_token)%nat in
  let partial_json := strip (skipn json_start current_text) in
  when (match partial_json with [] => false | _ => true end
        && _is_complete_json partial_json)
    (try_except_decode
       (func_call_json <- lift (json_loads partial_json) ;;
        func_name <- lift (py_get func_call_json (txt "name") JNull) ;;
        func_args <- lift (py_get func_call_json (txt "arguments") (JDict [])) ;;
        init_tracking_partial ;;;
        ensure_tracking ;;;
        send_name func_name ;;;
        stream_arguments func_args)
       (ret tt)) ;;;
  cs <- get_calls ;;
  ret (mkResult [] cs).

(** The [try] block of [parse_streaming_increment]. *)
Definition streaming_try (current_text : str) : M StreamingParseResult :=
  match find bot_token current_text with
  | None => cs <- get_calls ;; ret (mkResult [] cs)
  | Some start_idx =>
      match find_from eot_token current_text start_idx with
      | Some end_idx => complete_call current_text start_idx end_idx
      | None => partial_call current_text start_idx
      end
  end.

(** Lines 115-118: [_tool_indices] becomes an attribute, and [calls]
    starts empty. *)
Definition enter_try (tools : list Tool) (st : DetectorState) : frame :=
  let st :=
    match _tool_indices st with
    | None => set_tool_indices (Some (_get_tool_indices tools)) st
    | Some _ => st
    end in
  mkFrame st [].

(** One step of the incremental extractor: the result (or the exception
    that leaves the method) and the attributes afterwards. *)
Definition parse_streaming_increment (new_text : str) (tools : list Tool)
    (st : DetectorState) : result StreamingParseResult * DetectorState :=
  let st := set_buffer (_buffer st ++ new_text) st in
  let current_text := _buffer st in
  let has_tool_call := contains bot_token current_text in
  if negb has_tool_call then
    let st := set_buffer [] st in
    let new_text :=
      if contains eot_token new_text
      then replace eot_token [] new_text
      else new_text in
    (Ok (mkResult new_text []), st)
  else
    match streaming_try current_text (enter_try tools st) with
    | (Ok r, fr) => (Ok r, self fr)
    | (Raise _, fr) => (Ok (mkResult current_text []), self fr)
    end.

(** An incremental session: the fragments are fed in order; the results
    of the steps and the attributes at the end. *)
Fixpoint run_session (tools : list Tool) (fragments : list str)
    (st : DetectorState)
  : list (result StreamingParseResult) * DetectorState :=
  match fragments with
  | [] => ([], st)
  | new_text :: rest =>
      let '(r, st') := parse_streaming_increment new_text tools st in
      let '(rs, st'') := run_session tools rest st' in
      (r :: rs, st'')
  end.

End Detector.

(** ** The helper of the one-shot extractor *)

(** [name in tool_indices] *)
Definition known_tool (tool_name : str) (tool_indices : list (str * Z)) : bool :=
  existsb (fun entry => str_eqb tool_name (fst entry)) tool_indices.

(** Modelled from the spec: [parse_base_json] (base class, outside the
    sources at hand) receives the raw name/arguments pair and the tool
    catalog and validates the name against the catalog (sections 1 and
    6).  The pair of a tool of the catalog becomes one call item, carrying
    the name and the serialized arguments (section 4.2); a name that is
    absent, is no text or is no tool of the catalog gives no item.  The
    spec numbers the calls of a result from zero; the helper builds the
    item of one region and [detect_and_parse] does not renumber the
    items, so the model writes the index [0] of a first call, and no
    statement below rests on the index of a later call. *)
Definition parse_base_json_spec (json_dumps : json -> str) (Tool : Type)
    (_get_tool_indices : list Tool -> list (str * Z))
    (action : json) (tools : list Tool)
  : result (list ToolCallItem) :=
  let* func_name := py_get action (txt "name") JNull in
  let* func_args := py_get action (txt "parameters") (JDict []) in
  match func_name with
  | JString tool_name =>
      if known_tool tool_name (_get_tool_indices tools)
      then
        let* item := ToolCallItem_new 0 func_name (json_dumps func_args) in
        Ok [item]
      else Ok []
  | _ => Ok []
  end.

(** ** The detector over the reference reader and printer

    The tool catalog is a list of tool names. *)
Module Ref.

Definition Tool : Type := str.

Fixpoint tool_indices_from (i : Z) (tools : list Tool) : list (str * Z) :=
  match tools with
  | [] => []
  | t :: rest => (t, i) :: tool_indices_from (i + 1) rest
  end.

Definition get_tool_indices (tools : list Tool) : list (str * Z) :=
  tool_indices_from 0 tools.

Definition step (new_text : str) (st : DetectorState)
  : result StreamingParseResult * DetectorState :=
  parse_streaming_increment JsonRef.json_loads_ref JsonRef.json_dumps_ref
    get_tool_indices new_text [] st.

Definition session (fragments : list str)
  : list (result StreamingParseResult) * DetectorState :=
  run_session JsonRef.json_loads_ref JsonRef.json_dumps_ref
    get_tool_indices [] fragments init_state.

Definition parse_base_json : json -> list Tool -> result (list ToolCallItem) :=
  parse_base_json_spec JsonRef.json_dumps_ref get_tool_indices.

Definition one_shot (tools : list Tool) (text : str) : StreamingParseResult :=
  detect_and_parse JsonRef.json_loads_ref parse_base_json text tools.

End Ref.

(** ** Observations on a session *)

Definition calls_of (r : result StreamingParseResult) : list ToolCallItem :=
  match r with
  | Ok res => calls res
  | Raise _ => []
  end.

Definition text_of (r : result StreamingParseResult) : str :=
  match r with
  | Ok res => normal_text res
  | Raise _ => []
  end.

(** The items emitted in a session, in order. *)
Definition emitted_items (rs : list (result StreamingParseResult))
  : list ToolCallItem :=
  flat_map calls_of rs.

Definition emitted_indices (rs : list (result StreamingParseResult)) : list Z :=
  map tool_index (emitted_items rs).

(** A step has consumed a closing delimiter when the buffer it leaves is
    the text after the first closing delimiter that follows the first
    opening delimiter of [text]. *)
Definition closing_consumed (text : str) (st' : DetectorState) : bool :=
  match find bot_token text with
  | Some s =>
      match find_from eot_token text s with
      | Some e => str_eqb (_buffer st') (skipn (e + length eot_token) text)
      | None => false
      end
  | None => false
  end.


(** The argument text emitted for the call of index [idx]. *)
Definition parameters_for (idx : Z) (rs : list (result StreamingParseResult))
  : str :=
  concat (map parameters
            (filter (fun it => tool_index it =? idx) (emitted_items rs))).

Definition has_name (it : ToolCallItem) : bool :=
  match name it with
  | Some (_ :: _) => true
  | _ => false
  end.

(** The items of index [idx] that carry a name. *)
Definition named_items (idx : Z) (rs : list (result StreamingParseResult))
  : list ToolCallItem :=
  filter (fun it => (tool_index it =? idx) && has_name it) (emitted_items rs).

(** ** Statements on method bodies

    [triple P m Q E]: from a frame that satisfies [P], the computation [m]
    either returns a value [a] and a frame that satisfy [Q a], or raises
    and leaves a frame that satisfies [E]. *)

Definition triple {A : Type} (P : frame -> Prop) (m : M A)
    (Q : A -> frame -> Prop) (E : frame -> Prop) : Prop :=
  forall fr, P fr ->
    match m fr with
    | (Ok a, fr') => Q a fr'
    | (Raise _, fr') => E fr'
    end.

(** The index that the next emitted item carries: the initial [-1] stands
    for index [0]. *)
Definition next_index (st : DetectorState) : Z := Z.max 0 (current_tool_id st).

Definition all_index (k : Z) (items : list ToolCallItem) : Prop :=
  Forall (fun it => tool_index it = k) items.

(** The buffer is [b], the next index is [k] and the items appended so far
    carry [k]. *)
Definition Steady (b : str) (k : Z) (fr : frame) : Prop :=
  _buffer (self fr) = b
  /\ -1 <= current_tool_id (self fr)
  /\ next_index (self fr) = k
  /\ all_index k (local_calls fr).

(** As [Steady], once the tracking lists of call [k] exist. *)
Definition Ready (b : str) (k : Z) (fr : frame) : Prop :=
  _buffer (self fr) = b
  /\ current_tool_id (self fr) = k
  /\ 0 <= k
  /\ all_index k (local_calls fr).

(** The step returns its items and leaves the buffer as it is. *)
Definition Waiting (b : str) (k : Z) (r : StreamingParseResult) (fr : frame)
  : Prop :=
  Steady b k fr /\ r = mkResult [] (local_calls fr).

(** The step returns its items, the buffer is cut down to [rest] and the
    tool index has moved to [k + 1]. *)
Definition Consumed (rest : str) (k : Z) (r : StreamingParseResult)
    (fr : frame) : Prop :=
  _buffer (self fr) = rest
  /\ current_tool_id (self fr) = k + 1
  /\ 0 <= k
  /\ all_index k (local_calls fr)
  /\ r = mkResult [] (local_calls fr).

(** ** Statements on method bodies that return

    [returns P m items Q]: from a frame that satisfies [P], the
    computation [m] returns (it does not raise), appends exactly [items]
    to the local list, and the value and the frame satisfy [Q]. *)

Definition returns {A : Type} (P : frame -> Prop) (m : M A)
    (items : list ToolCallItem) (Q : A -> frame -> Prop) : Prop :=
  forall fr, P fr ->
    exists a fr', m fr = (Ok a, fr')
                  /\ local_calls fr' = local_calls fr ++ items
                  /\ Q a fr'.

(** The call of index [k] is being streamed: [sent] tells whether its
    name has been emitted, [last] is the argument text emitted so far. *)
Definition Started (b : str) (k : Z) (sent : bool) (last : str) (fr : frame)
  : Prop :=
  _buffer (self fr) = b
  /\ current_tool_id (self fr) = k
  /\ 0 <= k
  /\ current_tool_name_sent (self fr) = sent
  /\ _last_arguments (self fr) = last.

(** As [Started], with the entries of call [k] in the tracking lists. *)
Definition Tracking (b : str) (k : Z) (sent : bool) (last : str) (fr : frame)
  : Prop :=
  Started b k sent last fr
  /\ k < Z.of_nat (length (prev_tool_call_arr (self fr)))
  /\ k < Z.of_nat (length (streamed_args_for_tool (self fr))).

(** A frame with another value of [_tool_indices]. *)
Definition retool (v : option (list (str * Z))) (fr : frame) : frame :=
  mkFrame (set_tool_indices v (self fr)) (local_calls fr).

(** A computation that neither reads nor writes [_tool_indices]. *)
Definition tool_blind {A : Type} (m : M A) : Prop :=
  forall v fr, m (retool v fr) = (fst (m fr), retool v (snd (m fr))).

(** ** Structural metadata *)

(** Modelled from the spec: [StructureInfo] ([core_types], outside the
    sources at hand) holds the text that begins the call of a tool, the
    text that ends it and the text that triggers it (section 4.5). *)
Record StructureInfo : Type := mkStructureInfo {
  si_begin : str;
  si_end : str;
  si_trigger : str
}.

(** [structure_info()], applied to a tool name. *)
Definition structure_info (tool_name : str) : StructureInfo :=
  mkStructureInfo
    (json_txt "{'name': '" ++ tool_name ++ json_txt "', 'arguments': ")
    (txt "}")
    (json_txt "{'name': '" ++ tool_name ++ json_txt "', 'arguments': ").

(** The plain texts returned in a session, in order. *)
Definition emitted_texts (rs : list (result StreamingParseResult)) : list str :=
  map text_of rs.

(** * Properties *)

(** ** Strings *)

Lemma ascii_eqb_eq (a b : ascii) : ascii_eqb a b = true <-> a = b.
Proof. apply Ascii.eqb_eq. Qed.

Lemma str_eqb_eq (a b : str) : str_eqb a b = true <-> a = b.
Proof.
  revert b; induction a as [|x a IH]; intros [|y b]; simpl;
    try (split; [discriminate | discriminate]); try tauto.
  rewrite andb_true_iff, ascii_eqb_eq, IH.
  split; [intros [-> ->]; reflexivity | intros H; inversion H; auto].
Qed.

Lemma str_eqb_refl (a : str) : str_eqb a a = true.
Proof. apply str_eqb_eq; reflexivity. Qed.

Lemma startswith_iff (p s : str) :
  startswith p s = true <-> exists r, s = p ++ r.
Proof.
  revert s; induction p as [|a p IH]; intros s; simpl.
  - split; [exists s; reflexivity | reflexivity].
  - destruct s as [|b s].
    + split; [discriminate | intros [r Hr]; discriminate].
    + rewrite andb_true_iff, ascii_eqb_eq, IH. split.
      * intros [-> [r ->]]. exists r; reflexivity.
      * intros [r Hr]. inversion Hr; subst. split; [reflexivity | exists r; reflexivity].
Qed.

Lemma startswith_app (p r : str) : startswith p (p ++ r) = true.
Proof. apply startswith_iff; exists r; reflexivity. Qed.

Lemma startswith_length (p s : str) :
  startswith p s = true -> (length p <= length s)%nat.
Proof.
  intros H; apply startswith_iff in H as [r ->].
  rewrite length_app; lia.
Qed.

(** Whether [p] starts [s] is decided by the first [length p] characters
    of [s]. *)
Lemma startswith_extend (p s r : str) :
  (length p <= length s)%nat -> startswith p (s ++ r) = startswith p s.
Proof.
  revert s; induction p as [|a p IH]; intros s Hl; simpl; [reflexivity|].
  destruct s as [|b s]; simpl in *; [lia|].
  rewrite IH by lia. reflexivity.
Qed.

Lemma find_bound (sub s : str) (i : nat) :
  find sub s = Some i -> (i + length sub <= length s)%nat.
Proof.
  revert i; induction s as [|c s IH]; intros i; simpl.
  - destruct (startswith sub []) eqn:E; [|discriminate].
    intros H; inversion H; subst. apply startswith_length in E. simpl in *; lia.
  - destruct (startswith sub (c :: s)) eqn:E.
    + intros H; inversion H; subst. apply startswith_length in E. simpl in *; lia.
    + destruct (find sub s) as [j|]; simpl; [|discriminate].
      intros H; inversion H; subst. specialize (IH j eq_refl). lia.
Qed.

(** [find] returns an occurrence. *)
Lemma find_occurrence (sub s : str) (i : nat) :
  find sub s = Some i -> startswith sub (skipn i s) = true.
Proof.
  revert i; induction s as [|c s IH]; intros i; simpl.
  - destruct (startswith sub []) eqn:E; [|discriminate].
    intros H; inversion H; subst. exact E.
  - destruct (startswith sub (c :: s)) eqn:E.
    + intros H; inversion H; subst. exact E.
    + destruct (find sub s) as [j|]; simpl; [|discriminate].
      intros H; inversion H; subst. simpl. apply IH; reflexivity.
Qed.

(** [find] returns the first occurrence. *)
Lemma find_first (sub s : str) (i j : nat) :
  find sub s = Some i -> (j < i)%nat -> startswith sub (skipn j s) = false.
Proof.
  revert i j; induction s as [|c s IH]; intros i j; simpl.
  - destruct (startswith sub []) eqn:E; [|discriminate].
    intros H; inversion H; lia.
  - destruct (startswith sub (c :: s)) eqn:E.
    + intros H; inversion H; lia.
    + destruct (find sub s) as [k|] eqn:F; simpl; [|discriminate].
      intros H Hj; inversion H; subst.
      destruct j as [|j]; simpl; [exact E|].
      apply (IH k); [reflexivity | lia].
Qed.

Lemma find_none_iff (sub s : str) :
  find sub s = None <-> contains sub s = false.
Proof.
  unfold contains. destruct (find sub s); split; intros; congruence.
Qed.

Lemma find_startswith (sub s : str) :
  startswith sub s = true -> find sub s = Some 0%nat.
Proof. intros H. destruct s; simpl; rewrite H; reflexivity. Qed.

(** An occurrence found in [s] is still the first one in [s ++ r]. *)
Lemma find_app_some (sub s r : str) (i : nat) :
  find sub s = Some i -> find sub (s ++ r) = Some i.
Proof.
  revert i; induction s as [|c s IH]; intros i.
  - simpl. destruct (startswith sub []) eqn:E; [|discriminate].
    intros H; inversion H; subst.
    destruct sub; [|discriminate]. destruct r; reflexivity.
  - intros H. pose proof (find_bound _ _ H) as Hb.
    simpl in H. cbn [app find].
    replace (startswith sub (c :: s ++ r)) with (startswith sub (c :: s))
      by (symmetry; apply (startswith_extend sub (c :: s) r); simpl in *; lia).
    destruct (startswith sub (c :: s)); [exact H|].
    destruct (find sub s) as [j|]; simpl in *; [|discriminate].
    rewrite (IH j eq_refl). exact H.
Qed.

Lemma contains_app_l (sub s r : str) :
  contains sub s = true -> contains sub (s ++ r) = true.
Proof.
  unfold contains. destruct (find sub s) as [i|] eqn:E; [|discriminate].
  rewrite (find_app_some _ _ r E). reflexivity.
Qed.

(** Without an occurrence nothing is replaced. *)
Lemma replace_absent (old new s : str) :
  contains old s = false -> replace old new s = s.
Proof.
  unfold replace, contains.
  induction s as [|c s IH]; simpl; [reflexivity|].
  destruct (startswith old (c :: s)); [discriminate|].
  destruct (find old s); simpl; [discriminate|].
  intros _. rewrite IH; reflexivity.
Qed.

(** The characters of an occurrence that is being replaced are passed
    over. *)
Lemma replace_from_skip (old new x b : str) :
  replace_from old new (length x) (x ++ b) = replace_from old new 0 b.
Proof. induction x as [|c x IH]; [reflexivity | exact IH]. Qed.

(** The first occurrence is replaced and the rest of the text is treated
    in the same way. *)
Lemma replace_first (old new a b : str) :
  old <> [] ->
  find old (a ++ old) = Some (length a) ->
  replace old new (a ++ old ++ b) = a ++ new ++ replace old new b.
Proof.
  intros Hne. unfold replace. induction a as [|c a IH]; intros Hf.
  - destruct old as [|o old']; [congruence|].
    cbn [app replace_from].
    change (o :: old' ++ b) with ((o :: old') ++ b).
    rewrite startswith_app.
    replace (length (o :: old') - 1)%nat with (length old')
      by (cbn [length]; lia).
    rewrite replace_from_skip. reflexivity.
  - cbn [app find length] in Hf.
    destruct (startswith old (c :: a ++ old)) eqn:E; [discriminate|].
    destruct (find old (a ++ old)) as [i|] eqn:F; [|discriminate].
    cbn [option_map] in Hf. inversion Hf; subst i.
    assert (E' : startswith old (c :: a ++ old ++ b) = false).
    { change (c :: a ++ old ++ b) with ((c :: a) ++ old ++ b).
      rewrite app_assoc, startswith_extend; [exact E|].
      rewrite length_app. lia. }
    cbn [app replace_from]. rewrite E'. rewrite IH by reflexivity. reflexivity.
Qed.

Lemma skipn_app_exact {A : Type} (a b : list A) :
  skipn (length a) (a ++ b) = b.
Proof. induction a; simpl; auto. Qed.

Lemma firstn_app_exact {A : Type} (a b : list A) :
  firstn (length a) (a ++ b) = a.
Proof. induction a; simpl; congruence. Qed.

Lemma skipn_add_app {A : Type} (a b : list A) (n : nat) :
  skipn (length a + n) (a ++ b) = skipn n b.
Proof. induction a; simpl; auto. Qed.

Lemma skipn_shorter (k : nat) (s : str) :
  (0 < k)%nat -> s <> [] -> skipn k s <> s.
Proof.
  intros Hk Hs E.
  assert (L : length (skipn k s) = length s) by (rewrite E; reflexivity).
  rewrite length_skipn in L.
  assert (0 < length s)%nat by (destruct s; [congruence | simpl; lia]). lia.
Qed.

(** ** The delimiters *)

Lemma bot_token_length : length bot_token = 20%nat.
Proof. reflexivity. Qed.

Lemma eot_token_length : length eot_token = 21%nat.
Proof. reflexivity. Qed.

(** The closing delimiter does not start inside an opening delimiter:
    [current_text.find(eot_token, start_idx)] finds it after the opening
    delimiter that starts at [start_idx]. *)
Lemma find_eot_after_bot (r : str) :
  find eot_token (bot_token ++ r)
  = option_map (Nat.add 20) (find eot_token r).
Proof.
  unfold bot_token. cbn -[find eot_token].
  unfold find at 1; fold (find eot_token).
  repeat (unfold find at 1; fold (find eot_token);
          match goal with
          | |- context [startswith eot_token (?c :: _)] =>
              change (startswith eot_token (c :: _)) with false at 1
          end; cbv iota).
  destruct (find eot_token r); reflexivity.
Qed.

Lemma bot_token_inner (k : nat) :
  (0 < k < 20)%nat -> nth_error bot_token k <> Some "<"%char.
Proof.
  intros Hk.
  do 20 (destruct k as [|k]; [try lia; cbv; discriminate|]).
  lia.
Qed.

(** The opening delimiter has no border: an occurrence cannot start
    inside a text that does not hold one and end inside the delimiter that
    follows it. *)
Lemma startswith_bot_overlap (a r : str) :
  a <> [] -> startswith bot_token a = false ->
  startswith bot_token (a ++ bot_token ++ r) = false.
Proof.
  intros Hne Ha.
  destruct (le_lt_dec 20 (length a)) as [Hl|Hl].
  - rewrite startswith_extend by (rewrite bot_token_length; exact Hl). exact Ha.
  - destruct (startswith bot_token (a ++ bot_token ++ r)) eqn:E; [|reflexivity].
    exfalso. apply startswith_iff in E as [t Ht].
    apply (f_equal (fun l => nth_error l (length a))) in Ht.
    rewrite nth_error_app2, Nat.sub_diag in Ht by lia.
    rewrite (nth_error_app1 bot_token t) in Ht
      by (rewrite bot_token_length; exact Hl).
    symmetry in Ht. revert Ht. apply bot_token_inner.
    destruct a; [congruence | simpl; simpl in Hl; lia].
Qed.

Lemma find_bot_after_plain (before r : str) :
  contains bot_token before = false ->
  find bot_token (before ++ bot_token ++ r) = Some (length before).
Proof.
  induction before as [|c b IH]; intros Hc.
  - change ([] ++ bot_token ++ r) with (bot_token ++ r).
    apply find_startswith, startswith_app.
  - apply find_none_iff in Hc. cbn [find] in Hc.
    destruct (startswith bot_token (c :: b)) eqn:E; [discriminate|].
    destruct (find bot_token b) eqn:F; [discriminate|].
    assert (Hne : c :: b <> []) by discriminate.
    pose proof (startswith_bot_overlap r Hne E) as Hov.
    cbn [app find] in *. rewrite Hov, IH by (apply find_none_iff; exact F).
    reflexivity.
Qed.

(** ** The matches of the regular expression *)

Lemma findall_from_fuel (n m : nat) (text : str) :
  (length text <= n)%nat -> (length text <= m)%nat ->
  findall_from n text = findall_from m text.
Proof.
  revert m text; induction n as [|n IH]; intros m text Hn Hm.
  - destruct text; [|simpl in Hn; lia]. destruct m; reflexivity.
  - destruct m as [|m].
    + destruct text; [|simpl in Hm; lia]. reflexivity.
    + cbn [findall_from].
      destruct (find bot_token text) as [p|] eqn:Fb; [|reflexivity].
      destruct (find eot_token (skipn (p + length bot_token) text)) as [e|] eqn:Fe;
        [|reflexivity].
      f_equal.
      pose proof (find_bound _ _ Fb) as Bb. pose proof (find_bound _ _ Fe) as Be.
      rewrite length_skipn in Be.
      apply IH; rewrite !length_skipn; rewrite eot_token_length in *;
        rewrite bot_token_length in *; lia.
Qed.

Lemma findall_none (text : str) :
  contains bot_token text = false -> findall_func_call_regex text = [].
Proof.
  intros H; apply find_none_iff in H.
  unfold findall_func_call_regex. destruct (length text); simpl; [reflexivity|].
  rewrite H; reflexivity.
Qed.

(** One match and the scan of the rest. *)
Lemma findall_match (text : str) (p e : nat) :
  find bot_token text = Some p ->
  find eot_token (skipn (p + length bot_token) text) = Some e ->
  findall_func_call_regex text
  = strip (firstn e (skipn (p + length bot_token) text))
    :: findall_func_call_regex
         (skipn (e + length eot_token) (skipn (p + length bot_token) text)).
Proof.
  intros Fb Fe. unfold findall_func_call_regex.
  pose proof (find_bound _ _ Fb) as Bb. pose proof (find_bound _ _ Fe) as Be.
  rewrite length_skipn in Be. rewrite eot_token_length, bot_token_length in Be.
  rewrite bot_token_length in Bb.
  destruct (length text) as [|n] eqn:L; [lia|].
  cbn [findall_from]. rewrite Fb, Fe. f_equal.
  apply findall_from_fuel; rewrite ?length_skipn, ?eot_token_length, ?bot_token_length; lia.
Qed.

(** ** The one-shot extractor *)

Section OneShot.

Variable Tool : Type.
Variable json_loads : str -> result json.
Variable parse_base_json : json -> list Tool -> result (list ToolCallItem).

Notation parse_match := (parse_match json_loads parse_base_json).
Notation parse_matches := (parse_matches json_loads parse_base_json).
Notation detect_and_parse := (detect_and_parse json_loads parse_base_json).

Lemma parse_match_decode_error (tools : list Tool) (m : str) (e : exn) :
  json_loads (strip m) = Raise e -> parse_match tools m = Raise e.
Proof. intros H. unfold parse_match. rewrite H. reflexivity. Qed.

(** A match whose processing raises makes the whole loop raise. *)
Lemma parse_matches_raise (tools : list Tool) (ms : list str) (m : str) (e : exn) :
  In m ms -> parse_match tools m = Raise e ->
  forall acc, exists e', parse_matches tools ms acc = Raise e'.
Proof.
  induction ms as [|m0 ms IH]; intros Hin Hr acc; [contradiction|].
  simpl. destruct (parse_match tools m0) as [items|e0] eqn:E0; simpl.
  - destruct Hin as [->|Hin]; [congruence|]. apply IH; assumption.
  - exists e0; reflexivity.
Qed.

Lemma detect_and_parse_no_call (text : str) (tools : list Tool) :
  contains bot_token text = false ->
  detect_and_parse text tools = mkResult text [].
Proof.
  intros H. unfold detect_and_parse. rewrite H.
  apply find_none_iff in H. rewrite H. reflexivity.
Qed.

(** One call between a text without opening delimiter and a text without
    opening delimiter: the only match is the text between the
    delimiters. *)
Lemma findall_single (before J after : str) :
  contains bot_token before = false ->
  find eot_token (J ++ eot_token ++ after) = Some (length J) ->
  contains bot_token after = false ->
  findall_func_call_regex (before ++ bot_token ++ J ++ eot_token ++ after)
  = [strip J].
Proof.
  intros Hb He Ha.
  pose proof (find_bot_after_plain before (J ++ eot_token ++ after) Hb) as Fb.
  assert (Hrest : skipn (length before + length bot_token)
                    (before ++ bot_token ++ J ++ eot_token ++ after)
                  = J ++ eot_token ++ after).
  { rewrite skipn_add_app. apply skipn_app_exact. }
  assert (Fe : find eot_token
                 (skipn (length before + length bot_token)
                    (before ++ bot_token ++ J ++ eot_token ++ after))
               = Some (length J)) by (rewrite Hrest; exact He).
  rewrite (@findall_match _ (length before) (length J) Fb Fe), Hrest.
  rewrite firstn_app_exact, skipn_add_app, skipn_app_exact.
  rewrite findall_none by exact Ha. reflexivity.
Qed.

Lemma detect_and_parse_single (before J after : str) (tools : list Tool) :
  contains bot_token before = false ->
  find eot_token (J ++ eot_token ++ after) = Some (length J) ->
  contains bot_token after = false ->
  let text := before ++ bot_token ++ J ++ eot_token ++ after in
  detect_and_parse text tools
  = match parse_match tools (strip J) with
    | Ok items => mkResult (strip before) items
    | Raise _ => mkResult text []
    end.
Proof.
  intros Hb He Ha text. subst text. unfold detect_and_parse.
  rewrite findall_single by assumption.
  pose proof (find_bot_after_plain before (J ++ eot_token ++ after) Hb) as Fb.
  unfold contains. rewrite Fb. cbn [negb].
  rewrite firstn_app_exact. cbn [parse_matches].
  destruct (parse_match tools (strip J)); reflexivity.
Qed.

End OneShot.

(** ** Reasoning on method bodies *)

Lemma Ready_Steady (b : str) (k : Z) (fr : frame) : Ready b k fr -> Steady b k fr.
Proof.
  unfold Ready, Steady, next_index. intros (Hb & Hc & Hk & Hf).
  repeat split; auto; lia.
Qed.

Lemma triple_ret {A : Type} (P : frame -> Prop) (a : A)
    (Q : A -> frame -> Prop) (E : frame -> Prop) :
  (forall fr, P fr -> Q a fr) -> triple P (ret a) Q E.
Proof. intros H fr Hp. simpl. auto. Qed.

Lemma triple_bind {A B : Type} (P : frame -> Prop) (m : M A) (k : A -> M B)
    (Q : A -> frame -> Prop) (Q' : B -> frame -> Prop) (E : frame -> Prop) :
  triple P m Q E -> (forall a, triple (Q a) (k a) Q' E) ->
  triple P (bind m k) Q' E.
Proof.
  intros Hm Hk fr Hp. unfold bind. specialize (Hm fr Hp).
  destruct (m fr) as [[a|e] fr']; [apply Hk; exact Hm | exact Hm].
Qed.

Lemma triple_lift {A : Type} (P : frame -> Prop) (r : result A)
    (E : frame -> Prop) :
  (forall fr, P fr -> E fr) -> triple P (lift r) (fun _ => P) E.
Proof. intros H fr Hp. unfold lift. destruct r; auto. Qed.

Lemma triple_get_calls (P : frame -> Prop) (E : frame -> Prop) :
  triple P get_calls (fun cs fr => P fr /\ cs = local_calls fr) E.
Proof. intros fr Hp. simpl. auto. Qed.

Lemma triple_when (b : bool) (P : frame -> Prop) (m : M unit)
    (E : frame -> Prop) :
  triple P m (fun _ => P) E -> triple P (when b m) (fun _ => P) E.
Proof. intros H. destruct b; simpl; [exact H | apply triple_ret; auto]. Qed.

Lemma triple_try {A : Type} (P : frame -> Prop) (body handler : M A)
    (Q : A -> frame -> Prop) (E : frame -> Prop) :
  triple P body Q E -> triple E handler Q E ->
  triple P (try_except_decode body handler) Q E.
Proof.
  intros Hb Hh fr Hp. unfold try_except_decode. specialize (Hb fr Hp).
  destruct (body fr) as [[a|e] fr']; [exact Hb|].
  destruct e; try exact Hb. apply Hh; exact Hb.
Qed.

Lemma triple_post {A : Type} (P : frame -> Prop) (m : M A)
    (Q Q' : A -> frame -> Prop) (E : frame -> Prop) :
  triple P m Q E -> (forall a fr, Q a fr -> Q' a fr) -> triple P m Q' E.
Proof.
  intros H HQ fr Hp. specialize (H fr Hp).
  destruct (m fr) as [[a|e] fr']; auto.
Qed.

Lemma triple_pre {A : Type} (P P' : frame -> Prop) (m : M A)
    (Q : A -> frame -> Prop) (E : frame -> Prop) :
  triple P m Q E -> (forall fr, P' fr -> P fr) -> triple P' m Q E.
Proof. intros H HP fr Hp. apply H, HP, Hp. Qed.

Lemma all_index_app (k : Z) (l : list ToolCallItem) (it : ToolCallItem) :
  all_index k l -> tool_index it = k -> all_index k (l ++ [it]).
Proof.
  intros Hl Hi. apply Forall_app; split; [exact Hl | constructor; auto].
Qed.

Lemma ToolCallItem_new_index (i : Z) (n : json) (p : str) (it : ToolCallItem) :
  ToolCallItem_new i n p = Ok it -> tool_index it = i.
Proof. destruct n; simpl; intros H; inversion H; reflexivity. Qed.

(** Attribute reads after attribute writes. *)
Ltac simpl_state :=
  cbn [self local_calls _buffer prev_tool_call_arr current_tool_id
       current_tool_name_sent streamed_args_for_tool _last_arguments
       _tool_indices set_buffer set_prev_tool_call_arr set_current_tool_id
       set_current_tool_name_sent set_streamed_args_for_tool
       set_last_arguments set_tool_indices].

(** Case analysis on the outcome of a call that may raise. *)
Ltac case_setitem arr :=
  match goal with
  | |- context [py_setitem ?l ?i ?v] =>
      destruct (py_setitem l i v) as [arr|?]; simpl
  end.

Ltac case_getitem x :=
  match goal with
  | |- context [py_getitem ?l ?i] =>
      destruct (py_getitem l i) as [x|?]; simpl
  end.

Ltac case_new_item item Ei :=
  match goal with
  | |- context [ToolCallItem_new ?i ?n ?p] =>
      destruct (ToolCallItem_new i n p) as [item|?] eqn:Ei;
      [apply ToolCallItem_new_index in Ei|]; simpl
  end.

Section Streaming.

Variable Tool : Type.
Variable json_loads : str -> result json.
Variable json_dumps : json -> str.
Variable _get_tool_indices : list Tool -> list (str * Z).

Local Notation args_text := (args_text json_dumps).
Local Notation send_complete := (send_complete json_dumps).
Local Notation stream_arguments := (stream_arguments json_dumps).
Local Notation complete_call := (complete_call json_loads json_dumps).
Local Notation partial_call := (partial_call json_loads json_dumps).
Local Notation streaming_try := (streaming_try json_loads json_dumps).
Local Notation parse_streaming_increment :=
  (parse_streaming_increment json_loads json_dumps _get_tool_indices).
Local Notation run_session :=
  (run_session json_loads json_dumps _get_tool_indices).

Lemma init_tracking_complete_triple (b : str) (k : Z) :
  triple (Steady b k) init_tracking_complete (fun _ => Ready b k) (Steady b k).
Proof.
  intros fr (Hb & Hc & Hk & Hf). unfold next_index in Hk.
  unfold init_tracking_complete, bind, get_self, when, modify_self, ret.
  destruct (Z.eqb_spec (current_tool_id (self fr)) (-1)) as [E|E];
    unfold Ready; simpl; repeat split; auto; lia.
Qed.

Lemma init_tracking_partial_triple (b : str) (k : Z) :
  triple (Steady b k) init_tracking_partial (fun _ => Ready b k) (Steady b k).
Proof.
  intros fr (Hb & Hc & Hk & Hf). unfold next_index in Hk.
  unfold init_tracking_partial, bind, get_self, when, modify_self, ret.
  destruct (Z.eqb_spec (current_tool_id (self fr)) (-1)) as [E|E];
    unfold Ready; simpl; repeat split; auto; lia.
Qed.

Lemma ensure_tracking_triple (b : str) (k : Z) :
  triple (Ready b k) ensure_tracking (fun _ => Ready b k) (Steady b k).
Proof.
  intros fr (Hb & Hc & Hk & Hf).
  unfold ensure_tracking, bind, modify_self, Ready; simpl. auto.
Qed.

Lemma send_name_triple (b : str) (k : Z) (func_name : json) :
  triple (Ready b k) (send_name func_name) (fun _ => Ready b k) (Steady b k).
Proof.
  intros fr Hr. pose proof (Ready_Steady Hr) as Hs.
  destruct Hr as (Hb & Hc & Hk & Hf).
  unfold send_name, bind, get_self, when, ret.
  destruct (current_tool_name_sent (self fr)); simpl;
    [unfold Ready; auto|].
  unfold lift.
  case_new_item item Ei; [|exact Hs].
  case_setitem arr.
  - unfold Ready; simpl. repeat split; auto. apply all_index_app; congruence.
  - unfold Steady, next_index; simpl. repeat split; auto; try lia.
    apply all_index_app; congruence.
Qed.

Lemma stream_arguments_triple (b : str) (k : Z) (func_args : json) :
  triple (Ready b k) (stream_arguments func_args) (fun _ => Ready b k) (Steady b k).
Proof.
  intros fr Hr. pose proof (Ready_Steady Hr) as Hs.
  destruct Hr as (Hb & Hc & Hk & Hf).
  unfold stream_arguments, bind, get_self, when, ret.
  match goal with
  | |- context [match ?d with [] => false | _ :: _ => true end] =>
      destruct d as [|c diff] eqn:Ed
  end; simpl; [unfold Ready; auto|].
  unfold lift. simpl.
  assert (Hf' : all_index k
                  (local_calls fr
                   ++ [mkToolCallItem (current_tool_id (self fr)) None (c :: diff)]))
    by (apply all_index_app; auto).
  assert (St : forall st' : DetectorState,
             _buffer st' = b -> current_tool_id st' = k ->
             Steady b k
               (mkFrame st'
                  (local_calls fr
                   ++ [mkToolCallItem (current_tool_id (self fr)) None (c :: diff)]))).
  { intros st' H1 H2. unfold Steady, next_index; simpl. repeat split; auto; lia. }
  case_getitem streamed; [|apply St; auto].
  case_setitem sarr; [|apply St; auto].
  case_getitem snapshot; [|apply St; auto].
  case_setitem arr; [|apply St; auto].
  unfold Ready; simpl. auto.
Qed.

Lemma send_complete_triple (b : str) (k : Z) (end_idx : nat)
    (func_name func_args : json) :
  triple (Ready b k) (send_complete b end_idx func_name func_args)
    (Consumed (skipn (end_idx + length eot_token) b) k) (Steady b k).
Proof.
  intros fr Hr. pose proof (Ready_Steady Hr) as Hs.
  destruct Hr as (Hb & Hc & Hk & Hf).
  unfold send_complete, bind, get_self, ret, lift.
  case_new_item item Ei; [|exact Hs].
  case_setitem arr.
  - unfold Consumed; simpl. repeat split; auto; try lia.
    apply all_index_app; congruence.
  - unfold Steady, next_index; simpl. repeat split; auto; try lia.
    apply all_index_app; congruence.
Qed.

Lemma complete_call_triple (b : str) (k : Z) (start_idx end_idx : nat) :
  triple (Steady b k) (complete_call b start_idx end_idx)
    (fun r fr => Waiting b k r fr
                 \/ Consumed (skipn (end_idx + length eot_token) b) k r fr)
    (Steady b k).
Proof.
  unfold complete_call. apply triple_try.
  - eapply triple_bind; [apply triple_lift; auto|]. intros func_call_json.
    eapply triple_bind; [apply triple_lift; auto|]. intros func_name.
    eapply triple_bind; [apply triple_lift; auto|]. intros func_args.
    eapply triple_bind; [apply init_tracking_complete_triple|]. intros ?.
    eapply triple_bind; [apply ensure_tracking_triple|]. intros ?.
    eapply triple_post; [apply send_complete_triple|]. auto.
  - eapply triple_bind; [apply triple_get_calls|]. intros cs.
    apply triple_ret. intros fr [Hs Hcs]; subst cs. left. split; auto.
Qed.

Lemma partial_call_triple (b : str) (k : Z) (start_idx : nat) :
  triple (Steady b k) (partial_call b start_idx) (Waiting b k) (Steady b k).
Proof.
  unfold partial_call.
  eapply triple_bind with (Q := fun _ => Steady b k).
  - apply triple_when. apply triple_try.
    + eapply triple_bind; [apply triple_lift; auto|]. intros func_call_json.
      eapply triple_bind; [apply triple_lift; auto|]. intros func_name.
      eapply triple_bind; [apply triple_lift; auto|]. intros func_args.
      eapply triple_bind; [apply init_tracking_partial_triple|]. intros ?.
      eapply triple_bind; [apply ensure_tracking_triple|]. intros ?.
      eapply triple_bind; [apply send_name_triple|]. intros ?.
      eapply triple_post; [apply stream_arguments_triple|].
      intros ? fr. apply Ready_Steady.
    + apply triple_ret; auto.
  - intros ?. eapply triple_bind; [apply triple_get_calls|]. intros cs.
    apply triple_ret. intros fr [Hs Hcs]; subst cs. split; auto.
Qed.

Lemma streaming_try_triple (b : str) (k : Z) :
  triple (Steady b k) (streaming_try b)
    (fun r fr =>
       Waiting b k r fr
       \/ exists s e, find bot_token b = Some s
                      /\ find_from eot_token b s = Some e
                      /\ Consumed (skipn (e + length eot_token) b) k r fr)
    (Steady b k).
Proof.
  unfold streaming_try.
  destruct (find bot_token b) as [s|] eqn:Fb.
  - destruct (find_from eot_token b s) as [e|] eqn:Fe.
    + eapply triple_post; [apply complete_call_triple|].
      intros r fr [H|H]; [left; exact H | right; exists s, e; auto].
    + eapply triple_post; [apply partial_call_triple|]. auto.
  - eapply triple_bind; [apply triple_get_calls|]. intros cs.
    apply triple_ret. intros fr [Hs Hcs]; subst cs. left. split; auto.
Qed.

(** *** One step *)

(** What a step does to the attributes, whatever the fragment:
    - without an opening delimiter in the buffer, the buffer is emptied;
    - or the buffer is kept whole and the next index stays;
    - or the text up to the end of the first closing delimiter leaves the
      buffer and the tool index moves to the next call.
    The items of the step carry the index that was next before it. *)
Lemma step_cases (new_text : str) (tools : list Tool) (st : DetectorState) :
  -1 <= current_tool_id st ->
  let text := _buffer st ++ new_text in
  let k := next_index st in
  exists res st',
    parse_streaming_increment new_text tools st = (Ok res, st')
    /\ all_index k (calls res)
    /\ -1 <= current_tool_id st'
    /\ ((contains bot_token text = false
         /\ st' = set_buffer [] st /\ calls res = [])
        \/ (contains bot_token text = true
            /\ _buffer st' = text /\ next_index st' = k)
        \/ (exists s e, find bot_token text = Some s
                        /\ find_from eot_token text s = Some e
                        /\ _buffer st' = skipn (e + length eot_token) text
                        /\ current_tool_id st' = k + 1 /\ 0 <= k
                        /\ normal_text res = [])).
Proof.
  intros Hc text k. unfold parse_streaming_increment.
  cbn [_buffer set_buffer]. fold text.
  destruct (contains bot_token text) eqn:Hb; cbn [negb].
  - pose proof (@streaming_try_triple text k
                  (enter_try _get_tool_indices tools
                     (set_buffer text st))) as T.
    assert (S0 : Steady text k
                   (enter_try _get_tool_indices tools (set_buffer text st))).
    { unfold Steady, enter_try, all_index. cbn [self local_calls].
      destruct (_tool_indices (set_buffer text st)); simpl;
        repeat split; auto. }
    specialize (T S0).
    destruct (streaming_try text _) as [[r|e] fr'].
    + exists r, (self fr'). split; [reflexivity|].
      destruct T as [[(H1 & H2 & H3 & H4) ->]|(s & e & Fb & Fe & H1 & H2 & H3 & H4 & ->)];
        cbn [calls normal_text].
      * repeat split; auto.
      * repeat split; auto; [lia|].
        right; right. exists s, e. repeat split; auto.
    + exists (mkResult text []), (self fr'). split; [reflexivity|].
      destruct T as (H1 & H2 & H3 & H4). cbn [calls].
      repeat split; auto. constructor.
  - exists (mkResult (if contains eot_token new_text
                      then replace eot_token [] new_text else new_text) []),
      (set_buffer [] st).
    split; [destruct st; reflexivity|]. cbn [calls].
    repeat split; auto. constructor.
Qed.

Lemma step_keeps_index_bound (new_text : str) (tools : list Tool)
    (st : DetectorState) :
  -1 <= current_tool_id st ->
  -1 <= current_tool_id (snd (parse_streaming_increment new_text tools st)).
Proof.
  intros Hc. destruct (step_cases new_text tools st Hc) as (res & st' & E & _ & H & _).
  rewrite E. exact H.
Qed.

Lemma run_session_index_bound (tools : list Tool) (fragments : list str)
    (st : DetectorState) :
  -1 <= current_tool_id st ->
  -1 <= current_tool_id (snd (run_session tools fragments st)).
Proof.
  revert st; induction fragments as [|f fs IH]; intros st Hc; [exact Hc|].
  cbn [run_session].
  pose proof (step_keeps_index_bound f tools st Hc) as H1.
  destruct (parse_streaming_increment f tools st) as [r st1].
  specialize (IH st1 H1).
  destruct (run_session tools fs st1) as [rs st2]. exact IH.
Qed.

Lemma sorted_block (k : Z) (items : list ToolCallItem) (rest : list Z) :
  all_index k items -> StronglySorted Z.le rest -> Forall (Z.le k) rest ->
  StronglySorted Z.le (map tool_index items ++ rest)
  /\ Forall (Z.le k) (map tool_index items ++ rest).
Proof.
  intros Hi Hs Hr. induction Hi as [|it items Hk Hi IH]; simpl; [auto|].
  destruct IH as [IH1 IH2]. rewrite Hk. split.
  - constructor; assumption.
  - constructor; [lia | assumption].
Qed.

Lemma emitted_sorted (tools : list Tool) (fragments : list str)
    (st : DetectorState) :
  -1 <= current_tool_id st ->
  StronglySorted Z.le (emitted_indices (fst (run_session tools fragments st)))
  /\ Forall (Z.le (next_index st))
       (emitted_indices (fst (run_session tools fragments st))).
Proof.
  revert st; induction fragments as [|f fs IH]; intros st Hc.
  - split; constructor.
  - cbn [run_session].
    destruct (step_cases f tools st Hc) as (res & st1 & E & Hi & Hc1 & Hcase).
    rewrite E. specialize (IH st1 Hc1).
    destruct (run_session tools fs st1) as [rs st2]. cbn [fst] in *.
    unfold emitted_indices, emitted_items in *. cbn [flat_map calls_of].
    rewrite map_app. destruct IH as [IH1 IH2].
    apply sorted_block; auto.
    assert (Hle : next_index st <= next_index st1).
    { destruct Hcase as [(_ & -> & _)|[(_ & _ & ->)|(s & e & _ & _ & _ & H & H0 & _)]].
      - unfold next_index; simpl; lia.
      - lia.
      - unfold next_index at 2. rewrite H. lia. }
    eapply Forall_impl; [|exact IH2]. intros; simpl in *; lia.
Qed.

Lemma contains_nonempty (sub s : str) :
  sub <> [] -> contains sub s = true -> s <> [].
Proof.
  intros Hsub H ->. unfold contains in H. simpl in H.
  destruct sub; [congruence | discriminate].
Qed.

Lemma step_next_index (new_text : str) (tools : list Tool) (st : DetectorState) :
  -1 <= current_tool_id st ->
  let st' := snd (parse_streaming_increment new_text tools st) in
  next_index st'
  = next_index st
    + (if closing_consumed (_buffer st ++ new_text) st' then 1 else 0).
Proof.
  intros Hc. destruct (step_cases new_text tools st Hc) as (res & st' & E & _ & _ & Hcase).
  rewrite E. cbn [snd]. unfold closing_consumed.
  destruct Hcase as [(Hn & -> & _)|[(Hb & Hbuf & Hk)|(s & e & Fb & Fe & Hbuf & Hk & H0 & _)]].
  - apply find_none_iff in Hn. rewrite Hn. unfold next_index; simpl; lia.
  - rewrite Hk.
    destruct (find bot_token (_buffer st ++ new_text)) as [s|]; [|lia].
    destruct (find_from eot_token (_buffer st ++ new_text) s) as [e|]; [|lia].
    destruct (str_eqb (_buffer st') _) eqn:Eq; [|lia].
    exfalso. apply str_eqb_eq in Eq. rewrite Hbuf in Eq. symmetry in Eq.
    revert Eq. apply skipn_shorter; [rewrite eot_token_length; lia|].
    apply (@contains_nonempty bot_token); [discriminate | exact Hb].
  - rewrite Fb, Fe, Hbuf, str_eqb_refl. unfold next_index at 1. rewrite Hk. lia.
Qed.

(** *** The statements on the incremental extractor *)

(** A step that finds no opening delimiter in the buffer joined with the
    new fragment. *)
Lemma step_without_opening (new_text : str) (tools : list Tool)
    (st : DetectorState) :
  contains bot_token (_buffer st ++ new_text) = false ->
  parse_streaming_increment new_text tools st
  = (Ok (mkResult (replace eot_token [] new_text) []), set_buffer [] st).
Proof.
  intros H. unfold parse_streaming_increment.
  cbn [_buffer set_buffer]. rewrite H. cbn [negb].
  destruct (contains eot_token new_text) eqn:Ee.
  - destruct st; reflexivity.
  - rewrite replace_absent by exact Ee. destruct st; reflexivity.
Qed.

(** C10, as amended.  Whenever a step finds no opening delimiter in the
    buffer joined with the new fragment, it empties the buffer and
    returns, with no call, the new fragment alone, with every closing
    delimiter removed: the text that earlier steps left in the buffer is
    in neither the result nor the attributes.  The removal is pinned down:
    a fragment without closing delimiter is returned as it is, and the
    first closing delimiter of a fragment is dropped and the text after it
    treated in the same way. *)
Theorem residue_discarded (new_text : str) (tools : list Tool)
    (st : DetectorState) :
  contains bot_token (_buffer st ++ new_text) = false ->
  parse_streaming_increment new_text tools st
  = (Ok (mkResult (replace eot_token [] new_text) []), set_buffer [] st)
  /\ (contains eot_token new_text = false ->
      replace eot_token [] new_text = new_text)
  /\ (forall a b,
        new_text = a ++ eot_token ++ b ->
        find eot_token (a ++ eot_token) = Some (length a) ->
        replace eot_token [] new_text = a ++ replace eot_token [] b).
Proof.
  intros H. split; [apply step_without_opening; exact H|]. split.
  - apply replace_absent.
  - intros a b -> Hf. apply (@replace_first eot_token [] a b); [discriminate | exact Hf].
Qed.

(** An interior that is JSON but no object: [.get] raises and the step
    returns the buffered text. *)
Lemma non_object_downgraded (new_text : str) (tools : list Tool)
    (st : DetectorState) (s e : nat) (v : json) :
  let text := _buffer st ++ new_text in
  find bot_token text = Some s ->
  find_from eot_token text s = Some e ->
  json_loads (strip (slice text (s + length bot_token) e)) = Ok v ->
  (forall d, v <> JDict d) ->
  parse_streaming_increment new_text tools st
  = (Ok (mkResult text []),
     self (enter_try _get_tool_indices tools (set_buffer text st))).
Proof.
  intros text Fb Fe Hl Hv.
  unfold parse_streaming_increment. cbn [_buffer set_buffer]. fold text.
  unfold contains. rewrite Fb. cbn [negb].
  unfold streaming_try. rewrite Fb, Fe.
  unfold complete_call, try_except_decode, bind at 1, lift at 1.
  rewrite Hl. unfold bind at 1, lift at 1.
  destruct v; try reflexivity. exfalso. apply (Hv d). reflexivity.
Qed.

(** C8. With an opening delimiter in the buffer, the step always returns:
    no exception leaves it.  When the [try] block raises anything that is
    not a JSON decode failure, the step returns the whole buffered text as
    plain text and no call. *)
Theorem unexpected_failure_downgraded (new_text : str) (tools : list Tool)
    (st : DetectorState) :
  contains bot_token (_buffer st ++ new_text) = true ->
  let current_text := _buffer st ++ new_text in
  (exists res st', parse_streaming_increment new_text tools st = (Ok res, st'))
  /\ (forall e fr,
        streaming_try current_text
          (enter_try _get_tool_indices tools (set_buffer current_text st))
        = (Raise e, fr) ->
        is_decode_error e = false ->
        parse_streaming_increment new_text tools st
        = (Ok (mkResult current_text []), self fr)).
Proof.
  intros H current_text. unfold parse_streaming_increment.
  cbn [_buffer set_buffer]. fold current_text in H |- *.
  rewrite H. cbn [negb]. split.
  - destruct (streaming_try current_text _) as [[r|e] fr]; eauto.
  - intros e fr -> _. reflexivity.
Qed.

(** C6, as amended.  In a session the indices of the emitted items never
    decrease.  The tool index is read with the initial [-1] counted as
    [0] ([next_index]: the index of the next emitted item): a step that
    consumes a closing delimiter raises it by exactly one, and every other
    step leaves it as it is. *)
Theorem index_monotonicity (tools : list Tool) (fragments : list str) :
  StronglySorted Z.le
    (emitted_indices (fst (run_session tools fragments init_state)))
  /\ (forall new_text,
        let st := snd (run_session tools fragments init_state) in
        let st' := snd (parse_streaming_increment new_text tools st) in
        next_index st'
        = next_index st
          + (if closing_consumed (_buffer st ++ new_text) st' then 1 else 0)).
Proof.
  assert (H0 : -1 <= current_tool_id init_state) by (simpl; lia).
  split.
  - apply emitted_sorted; exact H0.
  - intros new_text. apply step_next_index.
    apply run_session_index_bound; exact H0.
Qed.

Lemma ToolCallItem_new_fits (i : Z) (nm : json) (p : str) :
  fits_name nm = true ->
  ToolCallItem_new i nm p = Ok (mkToolCallItem i (name_of nm) p).
Proof. destruct nm; simpl; intros H; try discriminate; reflexivity. Qed.

Lemma ensure_entries_length {A : Type} (l : list A) (i : Z) (d : A) :
  i < Z.of_nat (length (ensure_entries l i d)).
Proof. unfold ensure_entries. rewrite length_app, repeat_length. lia. Qed.

Lemma py_index_in_range {A : Type} (l : list A) (i : Z) :
  0 <= i < Z.of_nat (length l) -> py_index l i = Some (Z.to_nat i).
Proof.
  intros H. unfold py_index.
  destruct (Z.leb_spec 0 i); [|lia]. destruct (Z.ltb_spec i (Z.of_nat (length l))); [|lia].
  reflexivity.
Qed.

Lemma nth_error_list_set {A : Type} (l : list A) (k : nat) (v : A) :
  (k < length l)%nat -> nth_error (list_set k v l) k = Some v.
Proof.
  revert k; induction l as [|x l IH]; intros [|k] H; simpl in *; try lia; auto.
  apply IH; lia.
Qed.

(** The closing delimiter is in the buffer and the text between the
    delimiters is a JSON object with a fitting name: the step emits the
    call and moves on to the next one. *)
Lemma complete_call_success (text : str) (s e : nat) (d : pydict) (fr : frame) :
  json_loads (strip (slice text (s + length bot_token) e)) = Ok (JDict d) ->
  fits_name (dict_get d (txt "name") JNull) = true ->
  -1 <= current_tool_id (self fr) ->
  let k := next_index (self fr) in
  let func_name := dict_get d (txt "name") JNull in
  let func_args := dict_get d (txt "arguments") (JDict []) in
  let items :=
    local_calls fr ++ [mkToolCallItem k (name_of func_name) (args_text func_args)] in
  exists st',
    complete_call text s e fr = (Ok (mkResult [] items), mkFrame st' items)
    /\ _buffer st' = skipn (e + length eot_token) text
    /\ current_tool_id st' = k + 1
    /\ _last_arguments st' = []
    /\ current_tool_name_sent st' = false
    /\ _tool_indices st' = _tool_indices (self fr)
    /\ nth_error (prev_tool_call_arr st') (Z.to_nat k)
       = Some [(txt "name", func_name); (txt "arguments", func_args)].
Proof.
  intros Hl Hn Hc k func_name func_args items.
  unfold complete_call, try_except_decode, bind at 1, lift at 1.
  rewrite Hl. unfold bind at 1, lift at 1. cbn [py_get].
  unfold bind at 1, lift at 1. cbn [py_get].
  fold func_name func_args.
  unfold bind at 1.
  set (st1 := if current_tool_id (self fr) =? -1
              then set_streamed_args_for_tool [[]]
                     (set_prev_tool_call_arr [] (set_current_tool_id 0 (self fr)))
              else self fr).
  assert (E1 : init_tracking_complete fr = (Ok tt, mkFrame st1 (local_calls fr))).
  { unfold init_tracking_complete, bind, get_self, when, modify_self, ret, st1.
    destruct (current_tool_id (self fr) =? -1); [reflexivity | destruct fr; reflexivity]. }
  rewrite E1.
  assert (Hk : current_tool_id st1 = k /\ 0 <= k /\ _buffer st1 = _buffer (self fr)
               /\ _tool_indices st1 = _tool_indices (self fr)).
  { unfold st1, k, next_index.
    destruct (Z.eqb_spec (current_tool_id (self fr)) (-1)) as [E|E]; simpl;
      repeat split; lia. }
  destruct Hk as (Hk & Hk0 & Hb1 & Ht1).
  unfold bind at 1, ensure_tracking, bind at 1, modify_self. simpl_state.
  unfold send_complete, bind at 1, get_self. simpl_state.
  unfold bind at 1, lift at 1. rewrite Hk.
  rewrite (ToolCallItem_new_fits k func_name _ Hn).
  unfold bind at 1, append_call. simpl_state.
  unfold bind at 1, lift at 1.
  unfold py_setitem.
  rewrite py_index_in_range
    by (split; [exact Hk0 | apply ensure_entries_length]).
  unfold bind, modify_self, get_calls, ret. simpl_state.
  eexists. split; [reflexivity|]. simpl_state.
  repeat split; auto.
  - rewrite Hk. reflexivity.
  - apply nth_error_list_set.
    pose proof (ensure_entries_length (prev_tool_call_arr st1) k []). lia.
Qed.

(** The step that finds a whole call in the buffer. *)
Lemma step_complete (new_text : str) (tools : list Tool) (st : DetectorState)
    (s e : nat) (d : pydict) :
  let text := _buffer st ++ new_text in
  find bot_token text = Some s ->
  find_from eot_token text s = Some e ->
  json_loads (strip (slice text (s + length bot_token) e)) = Ok (JDict d) ->
  fits_name (dict_get d (txt "name") JNull) = true ->
  -1 <= current_tool_id st ->
  let func_name := dict_get d (txt "name") JNull in
  let func_args := dict_get d (txt "arguments") (JDict []) in
  exists st',
    parse_streaming_increment new_text tools st
    = (Ok (mkResult []
             [mkToolCallItem (next_index st) (name_of func_name)
                (args_text func_args)]), st')
    /\ _buffer st' = skipn (e + length eot_token) text
    /\ current_tool_id st' = next_index st + 1
    /\ _last_arguments st' = []
    /\ current_tool_name_sent st' = false
    /\ nth_error (prev_tool_call_arr st') (Z.to_nat (next_index st))
       = Some [(txt "name", func_name); (txt "arguments", func_args)].
Proof.
  intros text Fb Fe Hl Hn Hc func_name func_args.
  unfold parse_streaming_increment. cbn [_buffer set_buffer].
  fold text. unfold contains. rewrite Fb. cbn [negb].
  unfold streaming_try. rewrite Fb, Fe.
  set (fr := enter_try _get_tool_indices tools (set_buffer text st)).
  assert (Hfr : current_tool_id (self fr) = current_tool_id st
                /\ local_calls fr = []).
  { unfold fr, enter_try. simpl_state.
    destruct (_tool_indices st); simpl_state; auto. }
  destruct Hfr as [Hcur Hcalls].
  destruct (@complete_call_success text s e d fr Hl Hn) as (st' & E & H1 & H2 & H3 & H4 & _ & H5).
  { rewrite Hcur; exact Hc. }
  rewrite E. unfold next_index in *. rewrite Hcur, Hcalls in *.
  exists st'. cbn [app self]. repeat split; auto.
Qed.

(** C4, as amended.  At any point of a session, when the buffer joined
    with the new fragment holds an opening delimiter, a closing delimiter
    after it, and between them (white space stripped) a JSON object whose
    name is a string or is absent, the step returns no plain text and
    exactly one item: its index is the tool index before the increment
    ([0] for the first call of the session), its name is the parsed name,
    its parameters are the serialized arguments (the empty string for
    absent or empty arguments).  The buffer becomes the text after the
    closing delimiter and the tool index becomes the index of the item
    plus one. *)
Theorem complete_call_emitted (tools : list Tool) (fragments : list str)
    (new_text : str) (s e : nat) (d : pydict) :
  let st := snd (run_session tools fragments init_state) in
  let text := _buffer st ++ new_text in
  find bot_token text = Some s ->
  find_from eot_token text s = Some e ->
  json_loads (strip (slice text (s + length bot_token) e)) = Ok (JDict d) ->
  fits_name (dict_get d (txt "name") JNull) = true ->
  let func_name := dict_get d (txt "name") JNull in
  let func_args := dict_get d (txt "arguments") (JDict []) in
  let index := Z.max 0 (current_tool_id st) in
  exists st',
    parse_streaming_increment new_text tools st
    = (Ok (mkResult []
             [mkToolCallItem index (name_of func_name)
                (if truthy func_args then json_dumps func_args else [])]), st')
    /\ _buffer st' = skipn (e + length eot_token) text
    /\ current_tool_id st' = index + 1.
Proof.
  intros st text Fb Fe Hl Hn func_name func_args index.
  assert (Hc : -1 <= current_tool_id st)
    by (apply run_session_index_bound; simpl; lia).
  destruct (@step_complete new_text tools st s e d Fb Fe Hl Hn Hc)
    as (st' & E & H1 & H2 & _).
  exists st'. repeat split; assumption.
Qed.

Lemma lstrip_idempotent (s : str) : lstrip (lstrip s) = lstrip s.
Proof.
  induction s as [|c s IH]; simpl; [reflexivity|].
  destruct (isspace c) eqn:E; [exact IH | simpl; rewrite E; reflexivity].
Qed.

Lemma lstrip_snoc (a : str) (c : ascii) :
  isspace c = false -> lstrip (a ++ [c]) = lstrip a ++ [c].
Proof.
  intros Hc. induction a as [|x a IH]; simpl; [rewrite Hc; reflexivity|].
  destruct (isspace x); [exact IH | reflexivity].
Qed.

Lemma lstrip_head (s : str) :
  lstrip s = [] \/ exists c t, lstrip s = c :: t /\ isspace c = false.
Proof.
  induction s as [|c s IH]; simpl; [left; reflexivity|].
  destruct (isspace c) eqn:E; [exact IH | right; exists c, s; auto].
Qed.

Lemma strip_idempotent (s : str) : strip (strip s) = strip s.
Proof.
  unfold strip, rstrip.
  assert (H : lstrip (rev (lstrip (rev (lstrip s)))) = rev (lstrip (rev (lstrip s)))).
  { destruct (lstrip_head s) as [->|(c & t & -> & Hc)]; [reflexivity|].
    cbn [rev]. rewrite lstrip_snoc by exact Hc.
    rewrite rev_app_distr. cbn [rev app]. simpl. rewrite Hc. reflexivity. }
  rewrite H, rev_involutive, lstrip_idempotent. reflexivity.
Qed.

(** *** A single call fed in fragments *)

Section SingleCall.

Variable J : str.
Variable d : pydict.
Variable tools : list Tool.

Local Notation text := (bot_token ++ J ++ eot_token).
Local Notation func_name := (dict_get d (txt "name") JNull).
Local Notation func_args := (dict_get d (txt "arguments") (JDict [])).

Hypothesis closing_at_end : find eot_token (J ++ eot_token) = Some (length J).
Hypothesis interior_object : json_loads (strip J) = Ok (JDict d).
Hypothesis name_fits : fits_name func_name = true.

Lemma text_length : length text = (20 + length J + 21)%nat.
Proof. rewrite !length_app, bot_token_length, eot_token_length. lia. Qed.

Lemma find_eot_text : find eot_token text = Some (20 + length J)%nat.
Proof. rewrite find_eot_after_bot, closing_at_end. reflexivity. Qed.

(** A part of the text that holds the opening delimiter and not yet the
    whole text holds no closing delimiter. *)
Lemma proper_prefix (p r : str) :
  p ++ r = text -> r <> [] -> (20 <= length p)%nat ->
  find bot_token p = Some 0%nat /\ find_from eot_token p 0 = None.
Proof.
  intros Ht Hr Hp. split.
  - apply find_startswith.
    rewrite <- (startswith_extend bot_token p r)
      by (rewrite bot_token_length; exact Hp).
    rewrite Ht. apply startswith_app.
  - unfold find_from. cbn [skipn].
    destruct (find eot_token p) as [i|] eqn:F; [|reflexivity].
    exfalso. pose proof (find_bound _ _ F) as B.
    apply (find_app_some _ _ r) in F. rewrite Ht, find_eot_text in F.
    inversion F; subst i.
    assert (L : length (p ++ r) = length text) by (rewrite Ht; reflexivity).
    rewrite length_app, text_length in L. rewrite eot_token_length in B.
    destruct r; [congruence | simpl in L; lia].
Qed.

(** A step that leaves the call unfinished keeps the whole buffer. *)
Lemma step_unfinished (st : DetectorState) (f r : str) :
  -1 <= current_tool_id st ->
  (_buffer st ++ f) ++ r = text -> r <> [] ->
  (20 <= length (_buffer st ++ f))%nat ->
  exists res st',
    parse_streaming_increment f tools st = (Ok res, st')
    /\ _buffer st' = _buffer st ++ f
    /\ -1 <= current_tool_id st'
    /\ next_index st' = next_index st.
Proof.
  intros Hc Ht Hr Hp.
  destruct (@proper_prefix _ _ Ht Hr Hp) as [Fb Fe].
  destruct (step_cases f tools st Hc) as (res & st' & E & _ & Hc' & Hcase).
  exists res, st'. split; [exact E|].
  destruct Hcase as [(Hn & _)|[(_ & Hbuf & Hk)|(s & e & Fb' & Fe' & _)]].
  - apply find_none_iff in Hn. congruence.
  - auto.
  - rewrite Fb in Fb'. inversion Fb'; subst s. congruence.
Qed.

(** The step that completes the text. *)
Lemma step_finishing (st : DetectorState) (f : str) :
  -1 <= current_tool_id st -> next_index st = 0 ->
  _buffer st ++ f = text ->
  exists st',
    parse_streaming_increment f tools st
    = (Ok (mkResult []
             [mkToolCallItem 0 (name_of func_name) (args_text func_args)]), st')
    /\ _buffer st' = []
    /\ nth_error (prev_tool_call_arr st') 0
       = Some [(txt "name", func_name); (txt "arguments", func_args)].
Proof.
  intros Hc Hk Ht.
  assert (Fb : find bot_token (_buffer st ++ f) = Some 0%nat).
  { rewrite Ht. apply find_startswith, startswith_app. }
  assert (Fe : find_from eot_token (_buffer st ++ f) 0 = Some (20 + length J)%nat).
  { unfold find_from. cbn [skipn]. rewrite Ht, find_eot_text. reflexivity. }
  assert (Hl : json_loads
                 (strip (slice (_buffer st ++ f) (0 + length bot_token)
                           (20 + length J)))
               = Ok (JDict d)).
  { rewrite Ht. unfold slice. rewrite bot_token_length.
    replace (20 + length J - (0 + 20))%nat with (length J) by lia.
    change (0 + 20)%nat with (length bot_token).
    rewrite skipn_app_exact, firstn_app_exact. exact interior_object. }
  destruct (@step_complete f tools st 0 (20 + length J) d Fb Fe Hl name_fits Hc)
    as (st' & E & H1 & _ & _ & _ & H5).
  exists st'. rewrite Hk in *. split; [exact E|]. split; [|exact H5].
  rewrite H1, Ht. apply length_zero_iff_nil.
  rewrite length_skipn, text_length, eot_token_length. lia.
Qed.

(** Empty fragments after the call leave everything as it is. *)
Lemma run_idle (fragments : list str) (st : DetectorState) :
  _buffer st = [] -> concat fragments = [] ->
  emitted_items (fst (run_session tools fragments st)) = []
  /\ snd (run_session tools fragments st) = st.
Proof.
  revert st; induction fragments as [|f fs IH]; intros st Hb Hf; [auto|].
  cbn [concat] in Hf. apply app_eq_nil in Hf as [-> Hf].
  cbn [run_session].
  rewrite step_without_opening by (rewrite Hb; reflexivity).
  assert (Es : set_buffer [] st = st) by (destruct st; simpl in *; subst; reflexivity).
  rewrite Es. specialize (IH st Hb Hf).
  destruct (run_session tools fs st) as [rs st2]. cbn [fst snd] in *.
  destruct IH as [IH1 IH2]. split; [|exact IH2].
  unfold emitted_items in *. cbn [flat_map calls_of calls app]. exact IH1.
Qed.

Lemma run_single_call (fragments : list str) (st : DetectorState) :
  -1 <= current_tool_id st -> next_index st = 0 ->
  _buffer st ++ concat fragments = text ->
  (length (_buffer st) < length text)%nat ->
  (forall n, let cut := length (_buffer st ++ concat (firstn n fragments)) in
             cut = 0 \/ 20 <= cut)%nat ->
  (exists earlier,
      emitted_items (fst (run_session tools fragments st))
      = earlier ++ [mkToolCallItem 0 (name_of func_name) (args_text func_args)])
  /\ nth_error (prev_tool_call_arr (snd (run_session tools fragments st))) 0
     = Some [(txt "name", func_name); (txt "arguments", func_args)].
Proof.
  revert st; induction fragments as [|f fs IH]; intros st Hc Hk Ht Hlen Hcut.
  - exfalso. cbn [concat] in Ht. rewrite app_nil_r in Ht. rewrite Ht in Hlen. lia.
  - cbn [concat] in Ht. rewrite app_assoc in Ht.
    pose proof (Hcut 1%nat) as H1. cbn [firstn concat] in H1.
    rewrite app_nil_r in H1. cbv zeta in H1.
    cbn [run_session].
    assert (Hcut' : forall st', _buffer st' = _buffer st ++ f ->
              forall n,
                let cut := length (_buffer st' ++ concat (firstn n fs)) in
                (cut = 0 \/ 20 <= cut)%nat).
    { intros st' Hb n. rewrite Hb. specialize (Hcut (S n)).
      cbn [firstn concat] in Hcut. rewrite app_assoc in Hcut. exact Hcut. }
    assert (Htl : (length (_buffer st ++ f) <= length text)%nat).
    { rewrite <- Ht, (length_app (_buffer st ++ f)). lia. }
    destruct H1 as [H1|H1].
    + (* nothing has arrived yet *)
      apply length_zero_iff_nil in H1. apply app_eq_nil in H1 as [Hb ->].
      rewrite step_without_opening by (rewrite Hb; reflexivity).
      assert (Es : set_buffer [] st = st)
        by (destruct st; simpl in *; subst; reflexivity).
      rewrite Es. rewrite app_nil_r in Ht.
      assert (Hcut0 : forall n,
                let cut := length (_buffer st ++ concat (firstn n fs)) in
                (cut = 0 \/ 20 <= cut)%nat).
      { apply Hcut'. rewrite app_nil_r; reflexivity. }
      specialize (IH st Hc Hk Ht Hlen Hcut0).
      destruct (run_session tools fs st) as [rs st2]. cbn [fst snd] in *.
      destruct IH as [[earlier IH1] IH2]. split; [|exact IH2].
      exists earlier. unfold emitted_items in *.
      cbn [flat_map calls_of calls app]. exact IH1.
    + destruct (Nat.eq_dec (length (_buffer st ++ f)) (length text)) as [El|Nl].
      * (* the fragment completes the text *)
        assert (Hfs : concat fs = []).
        { apply length_zero_iff_nil.
          assert (L : length ((_buffer st ++ f) ++ concat fs) = length text)
            by (rewrite Ht; reflexivity).
          rewrite (length_app (_buffer st ++ f)) in L. lia. }
        rewrite Hfs, app_nil_r in Ht.
        destruct (@step_finishing st f Hc Hk Ht) as (st1 & E & Hb1 & Hs1).
        rewrite E.
        destruct (@run_idle fs st1 Hb1 Hfs) as [I1 I2].
        destruct (run_session tools fs st1) as [rs st2]. cbn [fst snd] in *.
        subst st2. split; [|exact Hs1].
        exists []. unfold emitted_items in *.
        cbn [flat_map calls_of calls]. rewrite I1. reflexivity.
      * (* the call is still unfinished *)
        assert (Hr : concat fs <> []).
        { intros Hnil. rewrite Hnil, app_nil_r in Ht. rewrite Ht in Nl. congruence. }
        destruct (@step_unfinished st f (concat fs) Hc Ht Hr H1)
          as (res & st1 & E & Hb1 & Hc1 & Hk1).
        rewrite E.
        assert (Ht1 : _buffer st1 ++ concat fs = text) by (rewrite Hb1; exact Ht).
        assert (Hlen1 : (length (_buffer st1) < length text)%nat)
          by (rewrite Hb1; lia).
        assert (Hk1' : next_index st1 = 0) by lia.
        specialize (IH st1 Hc1 Hk1' Ht1 Hlen1 (Hcut' st1 Hb1)).
        destruct (run_session tools fs st1) as [rs st2]. cbn [fst snd] in *.
        destruct IH as [[earlier IH1] IH2]. split; [|exact IH2].
        exists (calls res ++ earlier). unfold emitted_items in *.
        cbn [flat_map calls_of]. rewrite IH1, app_assoc. reflexivity.
Qed.

End SingleCall.

(** The one-shot extractor on the unsplit text of a single call: the
    helper receives the name and the arguments of the object. *)
Lemma one_shot_single_call
    (parse_base_json : json -> list Tool -> result (list ToolCallItem))
    (J : str) (d : pydict) (tools : list Tool) :
  find eot_token (J ++ eot_token) = Some (length J) ->
  json_loads (strip J) = Ok (JDict d) ->
  detect_and_parse json_loads parse_base_json (bot_token ++ J ++ eot_token) tools
  = match
      parse_base_json
        (JDict [(txt "name", dict_get d (txt "name") JNull);
                (txt "parameters", dict_get d (txt "arguments") (JDict []))])
        tools
    with
    | Ok items => mkResult [] items
    | Raise _ => mkResult (bot_token ++ J ++ eot_token) []
    end.
Proof.
  intros He Hl.
  pose proof (@detect_and_parse_single Tool json_loads parse_base_json
                [] J [] tools eq_refl) as H.
  rewrite app_nil_r in H. cbn [app] in H.
  rewrite H by (exact He || reflexivity). clear H.
  unfold parse_match. rewrite strip_idempotent, Hl.
  cbn [result_bind py_get]. reflexivity.
Qed.

(** C3, as amended.  The text is an opening delimiter, an interior [J] and
    a closing delimiter, where the closing delimiter does not occur
    earlier and [J] (white space stripped) is a JSON object whose name is
    a string or is absent.  It is split into fragments such that no cut
    falls inside the opening delimiter.  Then the one-shot extractor on
    the unsplit text hands the name and the arguments of the object to its
    helper and returns the calls that the helper builds; the session fed
    with the fragments ends with the item of the complete call and holds
    its snapshot, and both carry that name and those arguments.  The items
    that the session emits before the last one are no part of the
    statement. *)
Theorem chunking_agrees_with_one_shot
    (parse_base_json : json -> list Tool -> result (list ToolCallItem))
    (J : str) (d : pydict) (tools : list Tool) (fragments : list str) :
  let text := bot_token ++ J ++ eot_token in
  let func_name := dict_get d (txt "name") JNull in
  let func_args := dict_get d (txt "arguments") (JDict []) in
  find eot_token (J ++ eot_token) = Some (length J) ->
  json_loads (strip J) = Ok (JDict d) ->
  fits_name func_name = true ->
  concat fragments = text ->
  (forall n, let cut := length (concat (firstn n fragments)) in
             cut = 0 \/ length bot_token <= cut)%nat ->
  detect_and_parse json_loads parse_base_json text tools
  = match
      parse_base_json
        (JDict [(txt "name", func_name); (txt "parameters", func_args)]) tools
    with
    | Ok items => mkResult [] items
    | Raise _ => mkResult text []
    end
  /\ (exists earlier,
        emitted_items (fst (run_session tools fragments init_state))
        = earlier
          ++ [mkToolCallItem 0 (name_of func_name)
                (if truthy func_args then json_dumps func_args else [])])
  /\ nth_error
       (prev_tool_call_arr (snd (run_session tools fragments init_state))) 0
     = Some [(txt "name", func_name); (txt "arguments", func_args)].
Proof.
  intros text func_name func_args He Hl Hn Hf Hcut. split.
  - apply one_shot_single_call; assumption.
  - apply (@run_single_call J d tools He Hl Hn fragments init_state).
    + simpl; lia.
    + reflexivity.
    + exact Hf.
    + cbn [_buffer init_state length].
      rewrite !length_app, bot_token_length. lia.
    + exact Hcut.
Qed.

End Streaming.

(** ** The statements on the one-shot extractor *)

(** C5. In one-shot mode, when the text between the delimiters of any
    match is no valid JSON, or the processing of any match raises, the
    result is the input text as plain text and no call: the calls of the
    matches processed before are not returned. *)
Theorem one_shot_all_or_nothing (Tool : Type)
    (json_loads : str -> result json)
    (parse_base_json : json -> list Tool -> result (list ToolCallItem))
    (text : str) (tools : list Tool) (m : str) :
  In m (findall_func_call_regex text) ->
  (exists e, json_loads (strip m) = Raise e)
  \/ (exists e, parse_match json_loads parse_base_json tools m = Raise e) ->
  detect_and_parse json_loads parse_base_json text tools = mkResult text [].
Proof.
  intros Hin Hfail.
  assert (Hr : exists e, parse_match json_loads parse_base_json tools m = Raise e).
  { destruct Hfail as [[e He]|H]; [|exact H].
    exists e. apply parse_match_decode_error; exact He. }
  destruct Hr as [e He].
  destruct (@parse_matches_raise Tool json_loads parse_base_json tools _ m e Hin He [])
    as [e' He'].
  unfold detect_and_parse.
  destruct (contains bot_token text) eqn:Hc; cbn [negb].
  - rewrite He'. reflexivity.
  - apply find_none_iff in Hc. rewrite Hc. reflexivity.
Qed.

(** C7, as amended.  For a text without opening delimiter the one-shot
    extractor returns the text unchanged and no call; the incremental
    extractor, fed the text in a fresh session, returns no call and the
    text without its closing delimiters, which is the text unchanged when
    it holds no closing delimiter. *)
Theorem no_delimiter_passthrough (Tool : Type)
    (json_loads : str -> result json) (json_dumps : json -> str)
    (_get_tool_indices : list Tool -> list (str * Z))
    (parse_base_json : json -> list Tool -> result (list ToolCallItem))
    (text : str) (tools : list Tool) :
  contains bot_token text = false ->
  detect_and_parse json_loads parse_base_json text tools = mkResult text []
  /\ fst (parse_streaming_increment json_loads json_dumps _get_tool_indices
            text tools init_state)
     = Ok (mkResult (replace eot_token [] text) [])
  /\ (contains eot_token text = false -> replace eot_token [] text = text).
Proof.
  intros H. split; [apply detect_and_parse_no_call; exact H|]. split.
  - rewrite step_without_opening by exact H. reflexivity.
  - apply replace_absent.
Qed.

Lemma known_tool_in (tool_name : str) (tools : list Ref.Tool) (i : Z) :
  In tool_name tools ->
  known_tool tool_name (Ref.tool_indices_from i tools) = true.
Proof.
  revert i; induction tools as [|t tools IH]; intros i Hin; [contradiction|].
  unfold known_tool in *. cbn [Ref.tool_indices_from existsb fst].
  destruct Hin as [->|Hin].
  - rewrite str_eqb_refl. reflexivity.
  - rewrite (IH (i + 1) Hin). apply orb_true_r.
Qed.

(** C9, as amended.  Before-text, opening delimiter,
    [{"name":"f","arguments":{"x":1}}], closing delimiter, after-text,
    where neither text holds an opening delimiter and [f] is a tool of the
    catalog: the one-shot extractor returns the trimmed before-text and
    exactly one call, of name [f] and arguments [{"x": 1}]; the after-text
    is in no part of the result. *)
Theorem single_shot_round_trip (tools : list Ref.Tool) (before after : str) :
  contains bot_token before = false ->
  contains bot_token after = false ->
  In (txt "f") tools ->
  exists index,
    Ref.one_shot tools
      (before ++ bot_token ++ json_txt "{'name':'f','arguments':{'x':1}}"
         ++ eot_token ++ after)
    = mkResult (strip before)
        [mkToolCallItem index (Some (txt "f")) (json_txt "{'x': 1}")].
Proof.
  intros Hb Ha Hin. exists 0. unfold Ref.one_shot.
  rewrite detect_and_parse_single; [| exact Hb | | exact Ha].
  - assert (E : parse_match JsonRef.json_loads_ref Ref.parse_base_json tools
                  (strip (json_txt "{'name':'f','arguments':{'x':1}}"))
                = Ref.parse_base_json
                    (JDict [(txt "name", JString (txt "f"));
                            (txt "parameters", JDict [(txt "x", JInt 1)])])
                    tools)
      by reflexivity.
    rewrite E. unfold Ref.parse_base_json, parse_base_json_spec.
    cbn [result_bind py_get].
    change (dict_get _ (txt "name") JNull) with (JString (txt "f")).
    cbv iota. unfold Ref.get_tool_indices.
    rewrite (@known_tool_in (txt "f") tools 0 Hin). reflexivity.
  - vm_compute. reflexivity.
Qed.

(** ** Evaluations *)

(** C1. The call arrives as the opening delimiter with the complete JSON
    object, then the closing delimiter.  The first step streams the
    argument text [{"x": 1}]; the step that consumes the closing delimiter
    emits the whole argument text again: the texts emitted for index [0]
    join to twice the serialized arguments of the call. *)
Theorem argument_text_emitted_twice :
  let fragments :=
    [bot_token ++ json_txt "{'name': 'f', 'arguments': {'x': 1}}";
     eot_token] in
  let rs := fst (Ref.session fragments) in
  let st := snd (Ref.session fragments) in
  map calls_of rs
  = [[mkToolCallItem 0 (Some (txt "f")) [];
      mkToolCallItem 0 None (json_txt "{'x': 1}")];
     [mkToolCallItem 0 (Some (txt "f")) (json_txt "{'x': 1}")]]
  /\ parameters_for 0 rs = json_txt "{'x': 1}{'x': 1}"
  /\ option_map
       (fun snapshot =>
          JsonRef.json_dumps_ref (dict_get snapshot (txt "arguments") (JDict [])))
       (nth_error (prev_tool_call_arr st) 0)
     = Some (json_txt "{'x': 1}").
Proof. vm_compute. repeat split; reflexivity. Qed.

(** C2. On the same kind of session the name of the call is emitted by
    the first step and again by the step that consumes the closing
    delimiter: two items of index [0] carry the name. *)
Theorem name_emitted_twice :
  let fragments :=
    [bot_token ++ json_txt "{'name': 'f'}"; eot_token] in
  let rs := fst (Ref.session fragments) in
  map calls_of rs
  = [[mkToolCallItem 0 (Some (txt "f")) []];
     [mkToolCallItem 0 (Some (txt "f")) []]]
  /\ length (named_items 0 rs) = 2%nat.
Proof. vm_compute. split; reflexivity. Qed.

(** C3, as stated, fails when a cut falls inside the opening delimiter:
    the one-shot extractor finds the call, the session emits no item and
    records no snapshot. *)
Lemma chunking_counterexample :
  let J := json_txt "{'name': 'f', 'arguments': {'x': 1}}" in
  let text := bot_token ++ J ++ eot_token in
  let fragments :=
    [txt "<dots_"; txt "function_call>" ++ J ++ eot_token] in
  concat fragments = text
  /\ Ref.one_shot [txt "f"] text
     = mkResult [] [mkToolCallItem 0 (Some (txt "f")) (json_txt "{'x': 1}")]
  /\ map text_of (fst (Ref.session fragments))
     = [txt "<dots_"; txt "function_call>" ++ J]
  /\ emitted_items (fst (Ref.session fragments)) = []
  /\ prev_tool_call_arr (snd (Ref.session fragments)) = [].
Proof. vm_compute. repeat split; reflexivity. Qed.

(** C4, as stated, fails when the text between the delimiters is JSON
    but no object: the step returns the whole buffer as plain text and no
    item, keeps the buffer and does not move the tool index. *)
Lemma complete_call_counterexample :
  let text := bot_token ++ txt "[]" ++ eot_token in
  find bot_token text = Some 0%nat
  /\ find_from eot_token text 0 = Some 22%nat
  /\ JsonRef.json_loads_ref (strip (slice text (0 + length bot_token) 22))
     = Ok (JList [])
  /\ fst (Ref.step text init_state) = Ok (mkResult text [])
  /\ _buffer (snd (Ref.step text init_state)) = text
  /\ current_tool_id (snd (Ref.step text init_state)) = -1.
Proof. vm_compute. repeat split; reflexivity. Qed.

(** C6, as stated, fails on the first call of a session: the step that
    surfaces its name moves the tool index from [-1] to [0] and no closing
    delimiter is in the buffer; the step that consumes the closing
    delimiter of a first call that was not streamed moves it from [-1] to
    [1]. *)
Lemma index_counterexample :
  let streamed := bot_token ++ json_txt "{'name': 'f'}" in
  let whole := bot_token ++ json_txt "{'name': 'f'}" ++ eot_token in
  contains eot_token streamed = false
  /\ _buffer (snd (Ref.step streamed init_state)) = streamed
  /\ current_tool_id init_state = -1
  /\ current_tool_id (snd (Ref.step streamed init_state)) = 0
  /\ _buffer (snd (Ref.step whole init_state)) = []
  /\ current_tool_id (snd (Ref.step whole init_state)) = 1.
Proof. vm_compute. repeat split; reflexivity. Qed.

(** C7, as stated, fails for a text that holds a closing delimiter: the
    incremental extractor removes it. *)
Lemma passthrough_counterexample :
  let text := txt "ok</dots_function_call>" in
  contains bot_token text = false
  /\ Ref.one_shot [txt "f"] text = mkResult text []
  /\ fst (Ref.step text init_state) = Ok (mkResult (txt "ok") [])
  /\ fst (Ref.step text init_state) <> Ok (mkResult text []).
Proof. vm_compute. repeat split; try reflexivity. discriminate. Qed.

(** C9, as stated, fails when [f] is no tool of the catalog: the helper
    that validates the name builds no call. *)
Lemma round_trip_counterexample :
  Ref.one_shot []
    (txt "before" ++ bot_token
       ++ json_txt "{'name':'f','arguments':{'x':1}}"
       ++ eot_token ++ txt "after")
  = mkResult (txt "before") []
  /\ Ref.one_shot [txt "g"]
       (txt "before" ++ bot_token
          ++ json_txt "{'name':'f','arguments':{'x':1}}"
          ++ eot_token ++ txt "after")
     = mkResult (txt "before") [].
Proof. vm_compute. split; reflexivity. Qed.

(** C10, as stated, fails when the step after the residue finds an
    opening delimiter and its [try] block raises: the text [tail], left in
    the buffer after a call, comes back as plain text in front of a region
    that is JSON but no object. *)
Lemma residue_counterexample :
  let st :=
    snd (Ref.session
           [bot_token ++ json_txt "{'name': 'f'}" ++ eot_token ++ txt "tail"]) in
  let region := bot_token ++ txt "[]" ++ eot_token in
  _buffer st = txt "tail"
  /\ fst (Ref.step region st) = Ok (mkResult (txt "tail" ++ region) []).
Proof. vm_compute. split; reflexivity. Qed.

(** ** Instances *)

Lemma chunking_agrees_with_one_shot_witness :
  let J := json_txt "{'name': 'f', 'arguments': {'x': 1}}" in
  let fragments :=
    [bot_token ++ json_txt "{'name': 'f', ";
     json_txt "'arguments': {'x': 1}}</dots_"; txt "function_call>"] in
  Ref.one_shot [txt "f"] (bot_token ++ J ++ eot_token)
  = mkResult [] [mkToolCallItem 0 (Some (txt "f")) (json_txt "{'x': 1}")]
  /\ (exists earlier,
        emitted_items (fst (Ref.session fragments))
        = earlier ++ [mkToolCallItem 0 (Some (txt "f")) (json_txt "{'x': 1}")])
  /\ nth_error (prev_tool_call_arr (snd (Ref.session fragments))) 0
     = Some [(txt "name", JString (txt "f"));
             (txt "arguments", JDict [(txt "x", JInt 1)])].
Proof.
  intros J fragments.
  apply (@chunking_agrees_with_one_shot Ref.Tool JsonRef.json_loads_ref
           JsonRef.json_dumps_ref Ref.get_tool_indices
           Ref.parse_base_json J
           [(txt "name", JString (txt "f"));
            (txt "arguments", JDict [(txt "x", JInt 1)])]
           [txt "f"] fragments).
  - vm_compute; reflexivity.
  - vm_compute; reflexivity.
  - reflexivity.
  - reflexivity.
  - intros n. do 3 (destruct n as [|n]; [vm_compute; lia|]).
    vm_compute; lia.
Defined.

Lemma complete_call_emitted_witness :
  exists st',
    Ref.step (txt "}" ++ eot_token ++ txt "after")
      (snd (Ref.session [txt "before " ++ bot_token ++ json_txt "{'name': 'f'"]))
    = (Ok (mkResult [] [mkToolCallItem 0 (Some (txt "f")) []]), st')
    /\ _buffer st' = txt "after"
    /\ current_tool_id st' = 1.
Proof.
  destruct (@complete_call_emitted Ref.Tool JsonRef.json_loads_ref
              JsonRef.json_dumps_ref Ref.get_tool_indices []
              [txt "before " ++ bot_token ++ json_txt "{'name': 'f'"]
              (txt "}" ++ eot_token ++ txt "after") 7 40
              [(txt "name", JString (txt "f"))])
    as (st' & E & Hb & Hc).
  - vm_compute; reflexivity.
  - vm_compute; reflexivity.
  - vm_compute; reflexivity.
  - reflexivity.
  - exists st'. split; [exact E|]. split; [exact Hb | exact Hc].
Defined.

Lemma one_shot_all_or_nothing_witness :
  let text :=
    bot_token ++ json_txt "{'name': 'f'}" ++ eot_token
    ++ bot_token ++ txt "not json" ++ eot_token in
  Ref.one_shot [txt "f"] text = mkResult text [].
Proof.
  intros text.
  apply (@one_shot_all_or_nothing Ref.Tool JsonRef.json_loads_ref
           Ref.parse_base_json text [txt "f"] (txt "not json")).
  - vm_compute. right; left; reflexivity.
  - left. exists JSONDecodeError. vm_compute; reflexivity.
Defined.

Lemma no_delimiter_passthrough_witness :
  let text := txt "plain text" in
  Ref.one_shot [] text = mkResult text []
  /\ fst (Ref.step text init_state) = Ok (mkResult text []).
Proof.
  intros text.
  destruct (@no_delimiter_passthrough Ref.Tool JsonRef.json_loads_ref
              JsonRef.json_dumps_ref Ref.get_tool_indices
              Ref.parse_base_json text [] eq_refl) as (H1 & H2 & H3).
  split; [exact H1|].
  unfold Ref.step. rewrite H2, (H3 eq_refl). reflexivity.
Defined.

Lemma unexpected_failure_downgraded_witness :
  let text := bot_token ++ txt "[]" ++ eot_token in
  fst (Ref.step text init_state) = Ok (mkResult text []).
Proof.
  intros text.
  destruct (@unexpected_failure_downgraded Ref.Tool JsonRef.json_loads_ref
              JsonRef.json_dumps_ref Ref.get_tool_indices text [] init_state
              eq_refl) as [_ H].
  unfold Ref.step.
  rewrite (H AttributeError
             (enter_try Ref.get_tool_indices [] (set_buffer text init_state)));
    [reflexivity | vm_compute; reflexivity | reflexivity].
Defined.

Lemma single_shot_round_trip_witness :
  exists index,
    Ref.one_shot [txt "g"; txt "f"]
      (txt " before " ++ bot_token
         ++ json_txt "{'name':'f','arguments':{'x':1}}"
         ++ eot_token ++ txt "after")
    = mkResult (txt "before")
        [mkToolCallItem index (Some (txt "f")) (json_txt "{'x': 1}")].
Proof.
  apply (single_shot_round_trip [txt "g"; txt "f"] (txt " before ") (txt "after")).
  - vm_compute; reflexivity.
  - vm_compute; reflexivity.
  - right; left; reflexivity.
Defined.

Lemma residue_discarded_witness :
  let st := snd (Ref.session
                   [bot_token ++ json_txt "{'name': 'f'}" ++ eot_token
                    ++ txt "after"]) in
  _buffer st = txt "after"
  /\ Ref.step (txt "x</dots_function_call>y") st
     = (Ok (mkResult (txt "xy") []), set_buffer [] st).
Proof.
  intros st. split; [vm_compute; reflexivity|].
  destruct (@residue_discarded Ref.Tool JsonRef.json_loads_ref
              JsonRef.json_dumps_ref Ref.get_tool_indices
              (txt "x</dots_function_call>y") [] st)
    as (E & Habsent & Hfirst); [vm_compute; reflexivity|].
  unfold Ref.step. rewrite E.
  rewrite (Hfirst (txt "x") (txt "y"))
    by (vm_compute; reflexivity).
  assert (Ey : replace eot_token [] (txt "y") = txt "y")
    by (vm_compute; reflexivity).
  rewrite Ey. reflexivity.
Defined.

(** * Further properties *)

(** ** Presence check and one-shot extractor *)

Lemma contains_iff (sub s : str) :
  contains sub s = true <-> exists a b, s = a ++ sub ++ b.
Proof.
  split.
  - unfold contains. destruct (find sub s) as [i|] eqn:F; [|discriminate].
    intros _. apply find_occurrence in F. apply startswith_iff in F as [r Hr].
    exists (firstn i s), r. rewrite <- Hr. symmetry. apply firstn_skipn.
  - intros (a & b & ->). induction a as [|c a IH].
    + unfold contains. cbn [app].
      rewrite (find_startswith _ _ (startswith_app sub b)). reflexivity.
    + unfold contains in *. cbn [app find].
      destruct (startswith sub (c :: a ++ sub ++ b)); [reflexivity|].
      destruct (find sub (a ++ sub ++ b)); [reflexivity | discriminate].
Qed.

(** X1. [has_tool_call] is true exactly for the texts in which the opening
    delimiter occurs. *)
Theorem has_tool_call_iff (text : str) :
  has_tool_call text = true
  <-> exists before after, text = before ++ bot_token ++ after.
Proof. apply contains_iff. Qed.

Lemma findall_unterminated (before rest : str) :
  contains bot_token before = false ->
  contains eot_token rest = false ->
  findall_func_call_regex (before ++ bot_token ++ rest) = [].
Proof.
  intros Hb He. pose proof (find_bot_after_plain before rest Hb) as Fb.
  apply find_none_iff in He.
  unfold findall_func_call_regex.
  destruct (length (before ++ bot_token ++ rest)); cbn [findall_from];
    [reflexivity|].
  rewrite Fb, skipn_add_app, skipn_app_exact, He. reflexivity.
Qed.

(** A call region in front of a text: the scan goes on after the closing
    delimiter. *)
Lemma findall_cons (before J rest : str) :
  contains bot_token before = false ->
  find eot_token (J ++ eot_token) = Some (length J) ->
  findall_func_call_regex (before ++ bot_token ++ J ++ eot_token ++ rest)
  = strip J :: findall_func_call_regex rest.
Proof.
  intros Hb He.
  pose proof (find_bot_after_plain before (J ++ eot_token ++ rest) Hb) as Fb.
  assert (Hrest : skipn (length before + length bot_token)
                    (before ++ bot_token ++ J ++ eot_token ++ rest)
                  = J ++ eot_token ++ rest).
  { rewrite skipn_add_app. apply skipn_app_exact. }
  assert (Fe : find eot_token
                 (skipn (length before + length bot_token)
                    (before ++ bot_token ++ J ++ eot_token ++ rest))
               = Some (length J)).
  { rewrite Hrest, app_assoc. apply find_app_some. exact He. }
  rewrite (@findall_match _ (length before) (length J) Fb Fe), Hrest.
  rewrite firstn_app_exact, skipn_add_app, skipn_app_exact. reflexivity.
Qed.

Section OneShotMore.

Variable Tool : Type.
Variable json_loads : str -> result json.
Variable parse_base_json : json -> list Tool -> result (list ToolCallItem).

Local Notation parse_match := (parse_match json_loads parse_base_json).
Local Notation parse_matches := (parse_matches json_loads parse_base_json).
Local Notation detect_and_parse := (detect_and_parse json_loads parse_base_json).

Lemma parse_matches_ok (tools : list Tool) (ms : list str)
    (itemss : list (list ToolCallItem)) :
  Forall2 (fun m items => parse_match tools m = Ok items) ms itemss ->
  forall acc, parse_matches tools ms acc = Ok (acc ++ concat itemss).
Proof.
  induction 1 as [|m items ms itemss Hm _ IH]; intros acc; cbn [parse_matches concat].
  - rewrite app_nil_r. reflexivity.
  - rewrite Hm. cbn [result_bind]. rewrite IH, app_assoc. reflexivity.
Qed.

(** The processing of every match returns. *)
Lemma detect_and_parse_all_ok (text : str) (tools : list Tool) (idx : nat)
    (itemss : list (list ToolCallItem)) :
  find bot_token text = Some idx ->
  Forall2 (fun m items => parse_match tools m = Ok items)
    (findall_func_call_regex text) itemss ->
  detect_and_parse text tools
  = mkResult (strip (firstn idx text)) (concat itemss).
Proof.
  intros Fb Hall. unfold detect_and_parse, contains. rewrite Fb. cbn [negb].
  rewrite (@parse_matches_ok tools _ _ Hall []). reflexivity.
Qed.

(** X2. When the text holds an opening delimiter and the processing of
    every match returns, the one-shot extractor returns the trimmed text
    before the first opening delimiter and the calls of the matches, joined
    in the order of the matches. *)
Theorem one_shot_calls_in_order (text : str) (tools : list Tool) (idx : nat)
    (itemss : list (list ToolCallItem)) :
  find bot_token text = Some idx ->
  Forall2 (fun m items => parse_match tools m = Ok items)
    (findall_func_call_regex text) itemss ->
  detect_and_parse text tools
  = mkResult (strip (firstn idx text)) (concat itemss).
Proof. apply detect_and_parse_all_ok. Qed.

(** X3. An opening delimiter that no closing delimiter follows gives no
    call, and the text after it is in no part of the result: the one-shot
    extractor returns the trimmed text before the delimiter alone. *)
Theorem one_shot_unterminated (before rest : str) (tools : list Tool) :
  contains bot_token before = false ->
  contains eot_token rest = false ->
  detect_and_parse (before ++ bot_token ++ rest) tools
  = mkResult (strip before) [].
Proof.
  intros Hb He. unfold detect_and_parse, contains.
  rewrite (find_bot_after_plain before rest Hb). cbn [negb].
  rewrite findall_unterminated by assumption.
  rewrite firstn_app_exact. reflexivity.
Qed.

Lemma parse_match_object (tools : list Tool) (J : str) (d : pydict) :
  json_loads (strip J) = Ok (JDict d) ->
  parse_match tools (strip J)
  = parse_base_json
      (JDict [(txt "name", dict_get d (txt "name") JNull);
              (txt "parameters", dict_get d (txt "arguments") (JDict []))])
      tools.
Proof.
  intros Hl. unfold parse_match. rewrite strip_idempotent, Hl. reflexivity.
Qed.

(** X4. Two call regions, with texts without opening delimiter before,
    between and after them: the one-shot extractor returns the calls of the
    first region followed by the calls of the second, and the trimmed text
    before the first region; the texts between and after the regions are
    in no part of the result. *)
Theorem one_shot_two_calls (before J1 mid J2 after : str) (d1 d2 : pydict)
    (tools : list Tool) (items1 items2 : list ToolCallItem) :
  contains bot_token before = false ->
  contains bot_token mid = false ->
  contains bot_token after = false ->
  find eot_token (J1 ++ eot_token) = Some (length J1) ->
  find eot_token (J2 ++ eot_token) = Some (length J2) ->
  json_loads (strip J1) = Ok (JDict d1) ->
  json_loads (strip J2) = Ok (JDict d2) ->
  parse_base_json
    (JDict [(txt "name", dict_get d1 (txt "name") JNull);
            (txt "parameters", dict_get d1 (txt "arguments") (JDict []))])
    tools = Ok items1 ->
  parse_base_json
    (JDict [(txt "name", dict_get d2 (txt "name") JNull);
            (txt "parameters", dict_get d2 (txt "arguments") (JDict []))])
    tools = Ok items2 ->
  detect_and_parse
    (before ++ bot_token ++ J1 ++ eot_token
       ++ mid ++ bot_token ++ J2 ++ eot_token ++ after) tools
  = mkResult (strip before) (items1 ++ items2).
Proof.
  intros Hb Hm Ha He1 He2 Hl1 Hl2 Hp1 Hp2.
  rewrite (@detect_and_parse_all_ok _ tools (length before) [items1; items2]).
  - rewrite firstn_app_exact. cbn [concat]. rewrite app_nil_r. reflexivity.
  - apply find_bot_after_plain; exact Hb.
  - rewrite findall_cons by assumption. rewrite findall_cons by assumption.
    rewrite findall_none by exact Ha.
    constructor; [rewrite (@parse_match_object tools J1 d1 Hl1); exact Hp1|].
    constructor; [rewrite (@parse_match_object tools J2 d2 Hl2); exact Hp2|].
    constructor.
Qed.

End OneShotMore.

(** ** The streaming branch *)

Lemma returns_bind {A B : Type} (P : frame -> Prop) (m : M A) (k : A -> M B)
    (i1 i2 : list ToolCallItem) (Q : A -> frame -> Prop)
    (R : B -> frame -> Prop) :
  returns P m i1 Q -> (forall a, returns (Q a) (k a) i2 R) ->
  returns P (bind m k) (i1 ++ i2) R.
Proof.
  intros Hm Hk fr Hp. destruct (Hm fr Hp) as (a & fr1 & E1 & L1 & Q1).
  destruct (Hk a fr1 Q1) as (b & fr2 & E2 & L2 & R2).
  exists b, fr2. unfold bind. rewrite E1. split; [exact E2|].
  split; [rewrite L2, L1, app_assoc; reflexivity | exact R2].
Qed.

Lemma returns_lift {A : Type} (P : frame -> Prop) (a : A) :
  returns P (lift (Ok a)) [] (fun x fr => x = a /\ P fr).
Proof.
  intros fr Hp. exists a, fr. rewrite app_nil_r. auto.
Qed.

Lemma returns_result (P : frame -> Prop) :
  returns P (bind get_calls (fun cs => ret (mkResult [] cs))) []
    (fun r fr => P fr /\ r = mkResult [] (local_calls fr)).
Proof.
  intros fr Hp. exists (mkResult [] (local_calls fr)), fr.
  rewrite app_nil_r. auto.
Qed.

Lemma list_set_length {A : Type} (l : list A) (k : nat) (v : A) :
  length (list_set k v l) = length l.
Proof.
  revert k; induction l as [|x l IH]; intros [|k]; simpl; auto.
Qed.

Lemma py_setitem_in_range {A : Type} (l : list A) (i : Z) (v : A) :
  0 <= i < Z.of_nat (length l) ->
  py_setitem l i v = Ok (list_set (Z.to_nat i) v l).
Proof. intros H. unfold py_setitem. rewrite py_index_in_range by exact H. reflexivity. Qed.

Lemma py_getitem_in_range {A : Type} (l : list A) (i : Z) :
  0 <= i < Z.of_nat (length l) -> exists x, py_getitem l i = Ok x.
Proof.
  intros H. unfold py_getitem. rewrite py_index_in_range by exact H.
  destruct (nth_error l (Z.to_nat i)) as [x|] eqn:E; [exists x; reflexivity|].
  apply nth_error_None in E. lia.
Qed.

Section StreamingBranch.

Variable Tool : Type.
Variable json_loads : str -> result json.
Variable json_dumps : json -> str.
Variable _get_tool_indices : list Tool -> list (str * Z).

Local Notation args_text := (args_text json_dumps).
Local Notation stream_arguments := (stream_arguments json_dumps).
Local Notation partial_call := (partial_call json_loads json_dumps).
Local Notation streaming_try := (streaming_try json_loads json_dumps).
Local Notation _is_complete_json := (_is_complete_json json_loads).
Local Notation parse_streaming_increment :=
  (parse_streaming_increment json_loads json_dumps _get_tool_indices).
Local Notation run_session :=
  (run_session json_loads json_dumps _get_tool_indices).

Lemma init_tracking_partial_returns (st0 : DetectorState) :
  -1 <= current_tool_id st0 ->
  returns (fun fr => self fr = st0) init_tracking_partial []
    (fun _ => Started (_buffer st0) (next_index st0)
                (if current_tool_id st0 =? -1 then false
                 else current_tool_name_sent st0)
                (_last_arguments st0)).
Proof.
  intros Hc fr Hfr. subst st0. unfold next_index.
  unfold init_tracking_partial, bind, get_self, when, modify_self, ret.
  destruct (Z.eqb_spec (current_tool_id (self fr)) (-1)) as [E|E].
  - eexists tt, _. split; [reflexivity|]. cbn [local_calls].
    rewrite app_nil_r. split; [reflexivity|].
    unfold Started; simpl_state. repeat split; auto; lia.
  - exists tt, fr. rewrite app_nil_r. split; [reflexivity|]. split; [reflexivity|].
    unfold Started. repeat split; auto; lia.
Qed.

Lemma ensure_tracking_returns (b : str) (k : Z) (sent : bool) (last : str) :
  returns (Started b k sent last) ensure_tracking []
    (fun _ => Tracking b k sent last).
Proof.
  intros fr (Hb & Hk & Hk0 & Hs & Hl).
  unfold ensure_tracking, bind, modify_self.
  eexists tt, _. split; [reflexivity|]. simpl_state. rewrite app_nil_r.
  split; [reflexivity|].
  unfold Tracking, Started; simpl_state. rewrite <- Hk.
  repeat split; auto; try lia; apply ensure_entries_length.
Qed.

Lemma send_name_returns (b : str) (k : Z) (sent : bool) (last : str)
    (func_name : json) :
  fits_name func_name = true ->
  returns (Tracking b k sent last) (send_name func_name)
    (if sent then [] else [mkToolCallItem k (name_of func_name) []])
    (fun _ => Tracking b k true last).
Proof.
  intros Hn fr ((Hb & Hk & Hk0 & Hs & Hl) & Hp & Hst).
  unfold send_name, bind at 1, get_self, when. rewrite Hs.
  destruct sent; cbn [negb].
  - exists tt, fr. rewrite app_nil_r. split; [reflexivity|]. split; [reflexivity|].
    unfold Tracking, Started. repeat split; auto.
  - unfold bind at 1, lift at 1. rewrite Hk.
    rewrite (ToolCallItem_new_fits k func_name [] Hn).
    unfold bind at 1, append_call. simpl_state.
    unfold bind at 1, modify_self at 1. simpl_state.
    unfold bind, lift. rewrite py_setitem_in_range by lia.
    unfold modify_self. simpl_state.
    eexists tt, _. split; [reflexivity|]. simpl_state. split; [reflexivity|].
    unfold Tracking, Started; simpl_state. rewrite list_set_length.
    repeat split; auto.
Qed.

Lemma stream_arguments_returns (b : str) (k : Z) (last : str)
    (func_args : json) :
  let args_str := args_text func_args in
  let argument_diff :=
    if startswith last args_str then skipn (length last) args_str
    else args_str in
  returns (Tracking b k true last) (stream_arguments func_args)
    (match argument_diff with
     | [] => []
     | _ => [mkToolCallItem k None argument_diff]
     end)
    (fun _ => Tracking b k true (last ++ argument_diff)).
Proof.
  intros args_str argument_diff fr ((Hb & Hk & Hk0 & Hs & Hl) & Hp & Hst).
  unfold stream_arguments, bind at 1, get_self. rewrite Hl.
  fold args_str. fold argument_diff.
  destruct argument_diff as [|c diff] eqn:Ed; unfold when.
  - exists tt, fr. rewrite !app_nil_r. split; [reflexivity|]. split; [reflexivity|].
    unfold Tracking, Started. repeat split; auto.
  - unfold bind at 1, lift at 1. rewrite Hk. cbn [ToolCallItem_new].
    unfold bind at 1, append_call. simpl_state.
    unfold bind at 1, modify_self at 1. simpl_state.
    destruct (@py_getitem_in_range _ (streamed_args_for_tool (self fr)) k)
      as [streamed Eg]; [lia|].
    unfold bind at 1, lift at 1. rewrite Eg.
    unfold bind at 1, lift at 1. rewrite py_setitem_in_range by lia.
    unfold bind at 1, modify_self at 1. simpl_state.
    unfold bind at 1, get_self. simpl_state.
    destruct (@py_getitem_in_range _ (prev_tool_call_arr (self fr)) k)
      as [snapshot Es]; [lia|].
    unfold bind at 1, lift at 1. rewrite Hk, Es.
    unfold bind, lift. rewrite py_setitem_in_range by lia.
    unfold modify_self. simpl_state.
    eexists tt, _. split; [reflexivity|]. simpl_state. split; [reflexivity|].
    unfold Tracking, Started; simpl_state. rewrite !list_set_length.
    repeat split; auto.
Qed.

(** The streaming branch on a complete JSON object with a fitting name:
    nothing is raised; the name is emitted unless it has been, then the
    argument text that has not been emitted. *)
Lemma partial_call_returns (text : str) (s : nat) (d : pydict)
    (st0 : DetectorState) :
  let partial_json := strip (skipn (s + length bot_token) text) in
  let func_name := dict_get d (txt "name") JNull in
  let func_args := dict_get d (txt "arguments") (JDict []) in
  let k := next_index st0 in
  let sent := if current_tool_id st0 =? -1 then false
              else current_tool_name_sent st0 in
  let last := _last_arguments st0 in
  let args_str := args_text func_args in
  let argument_diff :=
    if startswith last args_str then skipn (length last) args_str
    else args_str in
  partial_json <> [] ->
  json_loads partial_json = Ok (JDict d) ->
  fits_name func_name = true ->
  -1 <= current_tool_id st0 ->
  returns (fun fr => self fr = st0) (partial_call text s)
    ((if sent then [] else [mkToolCallItem k (name_of func_name) []])
     ++ match argument_diff with
        | [] => []
        | _ => [mkToolCallItem k None argument_diff]
        end)
    (fun r fr => Tracking (_buffer st0) k true (last ++ argument_diff) fr
                 /\ r = mkResult [] (local_calls fr)).
Proof.
  intros partial_json func_name func_args k sent last args_str argument_diff
    Hne Hl Hn Hc.
  unfold partial_call. fold partial_json.
  assert (Hcond : (match partial_json with [] => false | _ => true end
                   && _is_complete_json partial_json) = true).
  { unfold _is_complete_json. rewrite Hl.
    destruct partial_json; [congruence | reflexivity]. }
  rewrite Hcond. unfold when.
  rewrite <- (app_nil_r (_ ++ _)).
  eapply returns_bind; [|intros ?; apply returns_result].
  intros fr Hfr.
  assert (Hbody : returns (fun fr => self fr = st0)
            (bind (lift (json_loads partial_json)) (fun func_call_json =>
             bind (lift (py_get func_call_json (txt "name") JNull)) (fun func_name =>
             bind (lift (py_get func_call_json (txt "arguments") (JDict [])))
               (fun func_args =>
             bind init_tracking_partial (fun _ =>
             bind ensure_tracking (fun _ =>
             bind (send_name func_name) (fun _ =>
             stream_arguments func_args)))))))
            ((if sent then [] else [mkToolCallItem k (name_of func_name) []])
             ++ match argument_diff with
                | [] => []
                | _ => [mkToolCallItem k None argument_diff]
                end)
            (fun _ => Tracking (_buffer st0) k true (last ++ argument_diff))).
  { rewrite Hl. cbn [py_get].
    change (?a ++ ?b) with ([] ++ [] ++ [] ++ [] ++ [] ++ a ++ b).
    eapply returns_bind; [apply returns_lift|]. intros ? fr1 [-> Hfr1]; revert fr1 Hfr1.
    eapply returns_bind; [apply returns_lift|]. intros ? fr1 [-> Hfr1]; revert fr1 Hfr1.
    eapply returns_bind; [apply returns_lift|]. intros ? fr1 [-> Hfr1]; revert fr1 Hfr1.
    eapply returns_bind; [apply init_tracking_partial_returns; exact Hc|]. intros ?.
    eapply returns_bind; [apply ensure_tracking_returns|]. intros ?.
    eapply returns_bind; [apply send_name_returns; exact Hn|]. intros ?.
    apply stream_arguments_returns. }
  destruct (Hbody fr Hfr) as (u & fr' & E & L & Q).
  exists tt, fr'. unfold try_except_decode. rewrite E. destruct u. auto.
Qed.

(** A step of the streaming branch. *)
Lemma step_streaming (new_text : str) (tools : list Tool) (st : DetectorState)
    (s : nat) (d : pydict) :
  let text := _buffer st ++ new_text in
  let partial_json := strip (skipn (s + length bot_token) text) in
  let func_name := dict_get d (txt "name") JNull in
  let func_args := dict_get d (txt "arguments") (JDict []) in
  let k := next_index st in
  let sent := if current_tool_id st =? -1 then false
              else current_tool_name_sent st in
  let last := _last_arguments st in
  let args_str := args_text func_args in
  let argument_diff :=
    if startswith last args_str then skipn (length last) args_str
    else args_str in
  find bot_token text = Some s ->
  find_from eot_token text s = None ->
  partial_json <> [] ->
  json_loads partial_json = Ok (JDict d) ->
  fits_name func_name = true ->
  -1 <= current_tool_id st ->
  exists st',
    parse_streaming_increment new_text tools st
    = (Ok (mkResult []
             ((if sent then [] else [mkToolCallItem k (name_of func_name) []])
              ++ match argument_diff with
                 | [] => []
                 | _ => [mkToolCallItem k None argument_diff]
                 end)), st')
    /\ _buffer st' = text
    /\ current_tool_id st' = k
    /\ current_tool_name_sent st' = true
    /\ _last_arguments st' = last ++ argument_diff.
Proof.
  intros text partial_json func_name func_args k sent last args_str
    argument_diff Fb Fe Hne Hl Hn Hc.
  unfold parse_streaming_increment. cbn [_buffer set_buffer]. fold text.
  unfold contains. rewrite Fb. cbn [negb].
  unfold streaming_try. rewrite Fb, Fe.
  set (fr := enter_try _get_tool_indices tools (set_buffer text st)).
  assert (Hfr : current_tool_id (self fr) = current_tool_id st
                /\ current_tool_name_sent (self fr) = current_tool_name_sent st
                /\ _last_arguments (self fr) = _last_arguments st
                /\ _buffer (self fr) = text
                /\ local_calls fr = []).
  { unfold fr, enter_try. simpl_state.
    destruct (_tool_indices st); simpl_state; auto. }
  destruct Hfr as (H1 & H2 & H3 & H4 & H5).
  destruct (@partial_call_returns text s d (self fr)) with (fr := fr)
    as (r & fr' & E & L & (((Qb & Qk & _ & Qs & Ql) & _) & Qr)); auto.
  { rewrite H1; exact Hc. }
  rewrite E, Qr, L, H5. unfold next_index in *.
  rewrite H1, H2, H3, H4 in *. cbn [app].
  exists (self fr'). repeat split; auto.
Qed.

(** The streaming branch, entered for the first call of a session
    (the tool index is still [-1], no argument text has been emitted) with
    a complete JSON object of fitting name behind the opening delimiter and
    no closing delimiter: the step raises nothing, returns no plain text,
    emits the name with empty parameters and then, when the argument text
    is not empty, the whole argument text; the tool index becomes [0], the
    name flag is set, the emitted argument text is recorded. *)
Theorem first_surfacing (tools : list Tool) (st : DetectorState)
    (new_text : str) (s : nat) (d : pydict) :
  let text := _buffer st ++ new_text in
  let partial_json := strip (skipn (s + length bot_token) text) in
  let func_name := dict_get d (txt "name") JNull in
  let func_args := dict_get d (txt "arguments") (JDict []) in
  let args_str := if truthy func_args then json_dumps func_args else [] in
  current_tool_id st = -1 ->
  _last_arguments st = [] ->
  find bot_token text = Some s ->
  find_from eot_token text s = None ->
  partial_json <> [] ->
  json_loads partial_json = Ok (JDict d) ->
  fits_name func_name = true ->
  exists st',
    parse_streaming_increment new_text tools st
    = (Ok (mkResult []
             (mkToolCallItem 0 (name_of func_name) []
              :: match args_str with
                 | [] => []
                 | _ => [mkToolCallItem 0 None args_str]
                 end)), st')
    /\ _buffer st' = text
    /\ current_tool_id st' = 0
    /\ current_tool_name_sent st' = true
    /\ _last_arguments st' = args_str.
Proof.
  intros text partial_json func_name func_args args_str Hcur Hlast
    Fb Fe Hne Hl Hn.
  destruct (@step_streaming new_text tools st s d Fb Fe Hne Hl Hn)
    as (st' & E & H1 & H2 & H3 & H4); [lia|].
  unfold next_index in *. rewrite Hcur, Hlast in *.
  cbn [Z.eqb Z.max Z.compare startswith length skipn app] in *.
  exists st'. repeat split; assumption.
Qed.

(** X6. The streaming branch, entered again for a call whose name has
    been emitted and whose argument text has been emitted in full (the
    buffer still parses to the same object, as after white space), raises
    nothing and emits nothing: no item, no plain text; the tool index, the
    name flag and the emitted argument text stay. *)
Theorem streaming_step_idle (tools : list Tool) (st : DetectorState)
    (new_text : str) (s : nat) (d : pydict) :
  let text := _buffer st ++ new_text in
  let partial_json := strip (skipn (s + length bot_token) text) in
  let func_name := dict_get d (txt "name") JNull in
  let func_args := dict_get d (txt "arguments") (JDict []) in
  0 <= current_tool_id st ->
  current_tool_name_sent st = true ->
  _last_arguments st = (if truthy func_args then json_dumps func_args else []) ->
  find bot_token text = Some s ->
  find_from eot_token text s = None ->
  partial_json <> [] ->
  json_loads partial_json = Ok (JDict d) ->
  fits_name func_name = true ->
  exists st',
    parse_streaming_increment new_text tools st = (Ok (mkResult [] []), st')
    /\ _buffer st' = text
    /\ current_tool_id st' = current_tool_id st
    /\ current_tool_name_sent st' = true
    /\ _last_arguments st' = _last_arguments st.
Proof.
  intros text partial_json func_name func_args Hcur Hsent Hlast
    Fb Fe Hne Hl Hn.
  destruct (@step_streaming new_text tools st s d Fb Fe Hne Hl Hn)
    as (st' & E & H1 & H2 & H3 & H4); [lia|].
  unfold next_index in *.
  fold func_args in E, H4. unfold args_text in E, H4.
  rewrite <- Hlast in E, H4.
  assert (Hsw : startswith (_last_arguments st) (_last_arguments st) = true).
  { rewrite <- (app_nil_r (_last_arguments st)) at 2. apply startswith_app. }
  rewrite Hsw, skipn_all, app_nil_r in *.
  destruct (Z.eqb_spec (current_tool_id st) (-1)); [lia|].
  rewrite Hsent in E. cbn [app] in E.
  exists st'. repeat split; auto. rewrite H2. lia.
Qed.

(** X5. The streaming branch in general, at any point of a session: with
    a complete JSON object of fitting name behind the opening delimiter
    and no closing delimiter, the step raises nothing and returns no plain
    text; it emits the name unless the flag says it has been emitted, then
    the argument text without the prefix that has been emitted (the whole
    argument text when it does not extend what has been emitted); the
    emitted argument text is appended to [_last_arguments]. *)
Theorem streaming_step_emits (tools : list Tool) (fragments : list str)
    (new_text : str) (s : nat) (d : pydict) :
  let st := snd (run_session tools fragments init_state) in
  let text := _buffer st ++ new_text in
  let partial_json := strip (skipn (s + length bot_token) text) in
  let func_name := dict_get d (txt "name") JNull in
  let func_args := dict_get d (txt "arguments") (JDict []) in
  let index := Z.max 0 (current_tool_id st) in
  let sent := if current_tool_id st =? -1 then false
              else current_tool_name_sent st in
  let last := _last_arguments st in
  let args_str := if truthy func_args then json_dumps func_args else [] in
  let argument_diff :=
    if startswith last args_str then skipn (length last) args_str
    else args_str in
  find bot_token text = Some s ->
  find_from eot_token text s = None ->
  partial_json <> [] ->
  json_loads partial_json = Ok (JDict d) ->
  fits_name func_name = true ->
  exists st',
    parse_streaming_increment new_text tools st
    = (Ok (mkResult []
             ((if sent then [] else [mkToolCallItem index (name_of func_name) []])
              ++ match argument_diff with
                 | [] => []
                 | _ => [mkToolCallItem index None argument_diff]
                 end)), st')
    /\ _buffer st' = text
    /\ current_tool_id st' = index
    /\ current_tool_name_sent st' = true
    /\ _last_arguments st' = last ++ argument_diff.
Proof.
  intros st text partial_json func_name func_args index sent last args_str
    argument_diff Fb Fe Hne Hl Hn.
  apply (@step_streaming new_text tools st s d Fb Fe Hne Hl Hn).
  apply (run_session_index_bound json_loads json_dumps _get_tool_indices).
  simpl; lia.
Qed.

End StreamingBranch.

(** ** Steps and sessions *)

Lemma skipn_app_short {A : Type} (l r : list A) (n : nat) :
  (n <= length l)%nat -> skipn n (l ++ r) = skipn n l ++ r.
Proof.
  intros H. rewrite skipn_app.
  replace (n - length l)%nat with 0%nat by lia. reflexivity.
Qed.

Lemma firstn_app_short {A : Type} (l r : list A) (n : nat) :
  (n <= length l)%nat -> firstn n (l ++ r) = firstn n l.
Proof.
  intros H. rewrite firstn_app.
  replace (n - length l)%nat with 0%nat by lia.
  cbn [firstn]. apply app_nil_r.
Qed.

(** The first opening delimiter, the first closing delimiter after it
    and the text between them stay when text is appended. *)
Lemma region_stable (text f : str) (s e : nat) :
  find bot_token text = Some s ->
  find_from eot_token text s = Some e ->
  find bot_token (text ++ f) = Some s
  /\ find_from eot_token (text ++ f) s = Some e
  /\ slice (text ++ f) (s + length bot_token) e
     = slice text (s + length bot_token) e.
Proof.
  intros Fb Fe. pose proof (find_bound _ _ Fb) as Bb.
  unfold find_from in *.
  destruct (find eot_token (skipn s text)) as [i|] eqn:Fi; [|discriminate].
  cbn [option_map] in Fe. inversion Fe; subst e.
  pose proof (find_bound _ _ Fi) as Bi. rewrite length_skipn in Bi.
  rewrite bot_token_length in *. rewrite eot_token_length in Bi.
  split; [apply find_app_some; exact Fb|]. split.
  - rewrite skipn_app_short by lia.
    rewrite (find_app_some _ _ f Fi). reflexivity.
  - unfold slice. rewrite skipn_app_short by lia.
    apply firstn_app_short. rewrite length_skipn. lia.
Qed.

Section Sessions.

Variable Tool : Type.
Variable json_loads : str -> result json.
Variable json_dumps : json -> str.
Variable _get_tool_indices : list Tool -> list (str * Z).

Local Notation args_text := (args_text json_dumps).
Local Notation send_complete := (send_complete json_dumps).
Local Notation stream_arguments := (stream_arguments json_dumps).
Local Notation complete_call := (complete_call json_loads json_dumps).
Local Notation partial_call := (partial_call json_loads json_dumps).
Local Notation streaming_try := (streaming_try json_loads json_dumps).
Local Notation parse_streaming_increment :=
  (parse_streaming_increment json_loads json_dumps _get_tool_indices).
Local Notation run_session :=
  (run_session json_loads json_dumps _get_tool_indices).

(** A closing delimiter in the buffer and an interior that does not
    decode: the step returns nothing and keeps the buffer. *)
Lemma step_undecodable (new_text : str) (tools : list Tool)
    (st : DetectorState) (s e : nat) :
  let text := _buffer st ++ new_text in
  find bot_token text = Some s ->
  find_from eot_token text s = Some e ->
  json_loads (strip (slice text (s + length bot_token) e))
  = Raise JSONDecodeError ->
  parse_streaming_increment new_text tools st
  = (Ok (mkResult [] []),
     self (enter_try _get_tool_indices tools (set_buffer text st))).
Proof.
  intros text Fb Fe Hl.
  unfold parse_streaming_increment. cbn [_buffer set_buffer]. fold text.
  unfold contains. rewrite Fb. cbn [negb].
  unfold streaming_try. rewrite Fb, Fe.
  unfold complete_call, try_except_decode, bind at 1, lift at 1.
  rewrite Hl. unfold enter_try.
  destruct (_tool_indices (set_buffer text st)); reflexivity.
Qed.

Lemma enter_try_buffer (tools : list Tool) (st : DetectorState) :
  _buffer (self (enter_try _get_tool_indices tools st)) = _buffer st.
Proof. unfold enter_try. destruct (_tool_indices st); reflexivity. Qed.

Lemma run_undecodable (tools : list Tool) (fragments : list str)
    (st : DetectorState) (s e : nat) :
  find bot_token (_buffer st) = Some s ->
  find_from eot_token (_buffer st) s = Some e ->
  json_loads (strip (slice (_buffer st) (s + length bot_token) e))
  = Raise JSONDecodeError ->
  Forall (eq (Ok (mkResult [] []))) (fst (run_session tools fragments st))
  /\ _buffer (snd (run_session tools fragments st))
     = _buffer st ++ concat fragments.
Proof.
  revert st; induction fragments as [|f fs IH]; intros st Fb Fe Hl.
  - cbn [run_session fst snd concat]. rewrite app_nil_r. split; constructor.
  - destruct (@region_stable (_buffer st) f s e Fb Fe) as (Fb' & Fe' & Hs).
    cbn [run_session].
    rewrite (@step_undecodable f tools st s e Fb' Fe')
      by (rewrite Hs; exact Hl).
    set (st1 := self (enter_try _get_tool_indices tools
                        (set_buffer (_buffer st ++ f) st))).
    assert (Hb1 : _buffer st1 = _buffer st ++ f)
      by (unfold st1; rewrite enter_try_buffer; reflexivity).
    specialize (IH st1). rewrite Hb1 in IH.
    specialize (IH Fb' Fe'). rewrite Hs in IH. specialize (IH Hl).
    destruct (run_session tools fs st1) as [rs st2]. cbn [fst snd] in *.
    destruct IH as [IH1 IH2]. split; [constructor; auto|].
    rewrite IH2. cbn [concat]. symmetry; apply app_assoc.
Qed.

(** X8. Once the buffer holds an opening delimiter, a closing delimiter
    after it and between them a text that does not decode as JSON, the
    region is never consumed: whatever fragments follow, every step
    returns no plain text and no call, and the buffer keeps growing. *)
Theorem undecodable_region_blocks (tools : list Tool)
    (before fragments : list str) (s e : nat) :
  let st := snd (run_session tools before init_state) in
  find bot_token (_buffer st) = Some s ->
  find_from eot_token (_buffer st) s = Some e ->
  json_loads (strip (slice (_buffer st) (s + length bot_token) e))
  = Raise JSONDecodeError ->
  Forall (eq (Ok (mkResult [] []))) (fst (run_session tools fragments st))
  /\ _buffer (snd (run_session tools fragments st))
     = _buffer st ++ concat fragments.
Proof. intros st. apply run_undecodable. Qed.

Lemma run_non_object (tools : list Tool) (fragments : list str)
    (st : DetectorState) (s e : nat) (v : json) :
  find bot_token (_buffer st) = Some s ->
  find_from eot_token (_buffer st) s = Some e ->
  json_loads (strip (slice (_buffer st) (s + length bot_token) e)) = Ok v ->
  (forall d, v <> JDict d) ->
  (forall n r,
      nth_error (fst (run_session tools fragments st)) n = Some r ->
      r = Ok (mkResult (_buffer st ++ concat (firstn (S n) fragments)) []))
  /\ _buffer (snd (run_session tools fragments st))
     = _buffer st ++ concat fragments.
Proof.
  revert st; induction fragments as [|f fs IH]; intros st Fb Fe Hl Hv.
  - cbn [run_session fst snd concat]. rewrite app_nil_r. split; [|reflexivity].
    intros [|n] r H; discriminate.
  - destruct (@region_stable (_buffer st) f s e Fb Fe) as (Fb' & Fe' & Hs).
    cbn [run_session].
    rewrite (@non_object_downgraded Tool json_loads json_dumps
               _get_tool_indices f tools st s e v Fb' Fe')
      by (rewrite ?Hs; assumption).
    set (st1 := self (enter_try _get_tool_indices tools
                        (set_buffer (_buffer st ++ f) st))).
    assert (Hb1 : _buffer st1 = _buffer st ++ f)
      by (unfold st1; rewrite enter_try_buffer; reflexivity).
    specialize (IH st1). rewrite Hb1 in IH.
    specialize (IH Fb' Fe'). rewrite Hs in IH. specialize (IH Hl Hv).
    destruct (run_session tools fs st1) as [rs st2]. cbn [fst snd] in *.
    destruct IH as [IH1 IH2]. split.
    + intros [|n] r H; cbn [nth_error] in H.
      * inversion H. cbn [firstn concat]. rewrite app_nil_r. reflexivity.
      * rewrite (IH1 n r H). cbn [firstn concat].
        rewrite app_assoc. reflexivity.
    + rewrite IH2. cbn [concat]. symmetry; apply app_assoc.
Qed.

(** X9. Once the buffer holds an opening delimiter, a closing delimiter
    after it and between them a JSON value that is no object, the region is
    never consumed: whatever fragments follow, every step returns no call
    and, as plain text, the whole buffer with all the fragments received
    so far, so the same text is returned again by each step. *)
Theorem non_object_region_echoes (tools : list Tool)
    (before fragments : list str) (s e : nat) (v : json) :
  let st := snd (run_session tools before init_state) in
  find bot_token (_buffer st) = Some s ->
  find_from eot_token (_buffer st) s = Some e ->
  json_loads (strip (slice (_buffer st) (s + length bot_token) e)) = Ok v ->
  (forall d, v <> JDict d) ->
  (forall n r,
      nth_error (fst (run_session tools fragments st)) n = Some r ->
      r = Ok (mkResult (_buffer st ++ concat (firstn (S n) fragments)) []))
  /\ _buffer (snd (run_session tools fragments st))
     = _buffer st ++ concat fragments.
Proof. intros st. apply run_non_object. Qed.

(** X10. A step never puts text into the buffer that it did not receive:
    the buffer it leaves is an end part of the buffer it found joined with
    the new fragment. *)
Theorem buffer_is_suffix (tools : list Tool) (fragments : list str)
    (new_text : str) :
  let st := snd (run_session tools fragments init_state) in
  let st' := snd (parse_streaming_increment new_text tools st) in
  exists dropped, _buffer st ++ new_text = dropped ++ _buffer st'.
Proof.
  intros st st'.
  assert (Hc : -1 <= current_tool_id st)
    by (apply (run_session_index_bound json_loads json_dumps _get_tool_indices);
        simpl; lia).
  destruct (step_cases json_loads json_dumps _get_tool_indices new_text tools st Hc)
    as (res & st1 & E & _ & _ & Hcase).
  unfold st'. rewrite E. cbn [snd].
  destruct Hcase as [(_ & -> & _)|[(_ & -> & _)|(s & e & _ & _ & -> & _)]].
  - exists (_buffer st ++ new_text). cbn [_buffer set_buffer].
    symmetry; apply app_nil_r.
  - exists []. reflexivity.
  - exists (firstn (e + length eot_token) (_buffer st ++ new_text)).
    symmetry; apply firstn_skipn.
Qed.

(** X11. All the items that one step emits carry the same index: the
    tool index at the start of the step, with the initial [-1] counted as
    [0]. *)
Theorem step_items_share_index (tools : list Tool) (fragments : list str)
    (new_text : str) :
  let st := snd (run_session tools fragments init_state) in
  Forall (fun it => tool_index it = Z.max 0 (current_tool_id st))
    (calls_of (fst (parse_streaming_increment new_text tools st))).
Proof.
  intros st.
  assert (Hc : -1 <= current_tool_id st)
    by (apply (run_session_index_bound json_loads json_dumps _get_tool_indices);
        simpl; lia).
  destruct (step_cases json_loads json_dumps _get_tool_indices new_text tools st Hc)
    as (res & st1 & E & Hi & _).
  rewrite E. exact Hi.
Qed.

(** X7. Two complete calls that arrive in one fragment at the start of a
    session: the step that receives them emits the first call alone, with
    index [0], and leaves the text of the second call, and nothing else,
    in the buffer; the next step, whatever fragment it receives (the empty
    fragment too), emits the second call, with index [1], and leaves its
    fragment in the buffer. *)
Theorem two_calls_need_two_steps (tools : list Tool) (J1 J2 : str)
    (d1 d2 : pydict) (next_fragment : str) :
  let text := bot_token ++ J1 ++ eot_token ++ bot_token ++ J2 ++ eot_token in
  let name1 := dict_get d1 (txt "name") JNull in
  let args1 := dict_get d1 (txt "arguments") (JDict []) in
  let name2 := dict_get d2 (txt "name") JNull in
  let args2 := dict_get d2 (txt "arguments") (JDict []) in
  find eot_token (J1 ++ eot_token) = Some (length J1) ->
  find eot_token (J2 ++ eot_token) = Some (length J2) ->
  json_loads (strip J1) = Ok (JDict d1) ->
  json_loads (strip J2) = Ok (JDict d2) ->
  fits_name name1 = true ->
  fits_name name2 = true ->
  let first := parse_streaming_increment text tools init_state in
  let second := parse_streaming_increment next_fragment tools (snd first) in
  fst first
  = Ok (mkResult []
          [mkToolCallItem 0 (name_of name1)
             (if truthy args1 then json_dumps args1 else [])])
  /\ _buffer (snd first) = bot_token ++ J2 ++ eot_token
  /\ current_tool_id (snd first) = 1
  /\ fst second
     = Ok (mkResult []
             [mkToolCallItem 1 (name_of name2)
                (if truthy args2 then json_dumps args2 else [])])
  /\ _buffer (snd second) = next_fragment
  /\ current_tool_id (snd second) = 2.
Proof.
  intros text name1 args1 name2 args2 He1 He2 Hl1 Hl2 Hn1 Hn2 first second.
  (* the first step *)
  assert (Fb1 : find bot_token (_buffer init_state ++ text) = Some 0%nat).
  { change (_buffer init_state ++ text) with text.
    apply find_startswith, startswith_app. }
  assert (Fe1 : find_from eot_token (_buffer init_state ++ text) 0
                = Some (20 + length J1)%nat).
  { unfold find_from. change (_buffer init_state ++ text) with text.
    cbn [skipn]. unfold text.
    rewrite find_eot_after_bot, app_assoc, (find_app_some _ _ _ He1).
    reflexivity. }
  assert (Hs1 : slice (_buffer init_state ++ text) (0 + length bot_token)
                  (20 + length J1) = J1).
  { unfold slice. change (_buffer init_state ++ text) with text. unfold text.
    rewrite bot_token_length.
    replace (20 + length J1 - (0 + 20))%nat with (length J1) by lia.
    change (0 + 20)%nat with (length bot_token).
    rewrite skipn_app_exact. apply firstn_app_exact. }
  destruct (@step_complete Tool json_loads json_dumps _get_tool_indices
              text tools init_state 0 (20 + length J1) d1 Fb1 Fe1)
    as (st1 & E1 & Hb1 & Hc1 & _); [rewrite Hs1; exact Hl1 | exact Hn1 | simpl; lia |].
  assert (Hrest : _buffer st1 = bot_token ++ J2 ++ eot_token).
  { rewrite Hb1. change (_buffer init_state ++ text) with text. unfold text.
    rewrite eot_token_length.
    replace (20 + length J1 + 21)%nat
      with (length bot_token + (length J1 + length eot_token))%nat
      by (rewrite bot_token_length, eot_token_length; lia).
    rewrite skipn_add_app, skipn_add_app. apply skipn_app_exact. }
  assert (Hidx1 : current_tool_id st1 = 1) by (rewrite Hc1; reflexivity).
  (* the second step *)
  assert (Ht2 : _buffer st1 ++ next_fragment
                = bot_token ++ J2 ++ eot_token ++ next_fragment).
  { rewrite Hrest, <- !app_assoc. reflexivity. }
  assert (Fb2 : find bot_token (_buffer st1 ++ next_fragment) = Some 0%nat)
    by (rewrite Ht2; apply find_startswith, startswith_app).
  assert (Fe2 : find_from eot_token (_buffer st1 ++ next_fragment) 0
                = Some (20 + length J2)%nat).
  { unfold find_from. cbn [skipn]. rewrite Ht2.
    rewrite find_eot_after_bot, app_assoc, (find_app_some _ _ _ He2).
    reflexivity. }
  assert (Hs2 : slice (_buffer st1 ++ next_fragment) (0 + length bot_token)
                  (20 + length J2) = J2).
  { unfold slice. rewrite Ht2, bot_token_length.
    replace (20 + length J2 - (0 + 20))%nat with (length J2) by lia.
    change (0 + 20)%nat with (length bot_token).
    rewrite skipn_app_exact. apply firstn_app_exact. }
  destruct (@step_complete Tool json_loads json_dumps _get_tool_indices
              next_fragment tools st1 0 (20 + length J2) d2 Fb2 Fe2)
    as (st2 & E2 & Hb2 & Hc2 & _);
    [rewrite Hs2; exact Hl2 | exact Hn2 | rewrite Hidx1; lia |].
  assert (Hrest2 : _buffer st2 = next_fragment).
  { rewrite Hb2, Ht2, eot_token_length.
    replace (20 + length J2 + 21)%nat
      with (length bot_token + (length J2 + length eot_token))%nat
      by (rewrite bot_token_length, eot_token_length; lia).
    rewrite skipn_add_app, skipn_add_app. apply skipn_app_exact. }
  unfold second, first. rewrite E1. cbn [fst snd]. rewrite E2. cbn [fst snd].
  unfold next_index in *. rewrite Hidx1 in *.
  repeat split; auto.
Qed.

(** *** The tool catalog *)

Lemma tool_blind_ret {A : Type} (a : A) : tool_blind (ret a).
Proof. intros v fr. reflexivity. Qed.

Lemma tool_blind_lift {A : Type} (r : result A) : tool_blind (lift r).
Proof. intros v fr. reflexivity. Qed.

Lemma tool_blind_get_calls : tool_blind get_calls.
Proof. intros v fr. reflexivity. Qed.

Lemma tool_blind_bind {A B : Type} (m : M A) (k : A -> M B) :
  tool_blind m -> (forall a, tool_blind (k a)) -> tool_blind (bind m k).
Proof.
  intros Hm Hk v fr. unfold bind. rewrite Hm.
  destruct (m fr) as [[a|e] fr1]; cbn [fst snd]; [apply Hk | reflexivity].
Qed.

Lemma tool_blind_when (b : bool) (m : M unit) :
  tool_blind m -> tool_blind (when b m).
Proof. intros H. destruct b; [exact H | apply tool_blind_ret]. Qed.

Lemma tool_blind_try {A : Type} (body handler : M A) :
  tool_blind body -> tool_blind handler ->
  tool_blind (try_except_decode body handler).
Proof.
  intros Hb Hh v fr. unfold try_except_decode. rewrite Hb.
  destruct (body fr) as [[a|e] fr1]; cbn [fst snd]; [reflexivity|].
  destruct e; try reflexivity. apply Hh.
Qed.

Lemma tool_blind_init_complete : tool_blind init_tracking_complete.
Proof.
  intros v fr. unfold init_tracking_complete, bind, get_self, when, retool.
  simpl_state. destruct (current_tool_id (self fr) =? -1); reflexivity.
Qed.

Lemma tool_blind_init_partial : tool_blind init_tracking_partial.
Proof.
  intros v fr. unfold init_tracking_partial, bind, get_self, when, retool.
  simpl_state. destruct (current_tool_id (self fr) =? -1); reflexivity.
Qed.

Lemma tool_blind_ensure_tracking : tool_blind ensure_tracking.
Proof. intros v fr. reflexivity. Qed.

Lemma tool_blind_send_name (func_name : json) : tool_blind (send_name func_name).
Proof.
  intros v fr. unfold send_name, bind, get_self, when, lift, retool.
  simpl_state. destruct (current_tool_name_sent (self fr)); [reflexivity|].
  cbn [negb]. case_new_item item Ei; [|reflexivity].
  case_setitem arr; reflexivity.
Qed.

Lemma tool_blind_stream_arguments (func_args : json) :
  tool_blind (stream_arguments func_args).
Proof.
  intros v fr. unfold stream_arguments, bind, get_self, when, lift, retool.
  simpl_state.
  match goal with
  | |- context [match ?x with [] => false | _ :: _ => true end] =>
      destruct x; [reflexivity|]
  end.
  cbn [ToolCallItem_new append_call modify_self]. simpl_state.
  case_getitem streamed; [|reflexivity].
  case_setitem sarr; [|reflexivity]. simpl_state.
  case_getitem snapshot; [|reflexivity].
  case_setitem arr; reflexivity.
Qed.

Lemma tool_blind_send_complete (current_text : str) (end_idx : nat)
    (func_name func_args : json) :
  tool_blind (send_complete current_text end_idx func_name func_args).
Proof.
  intros v fr. unfold send_complete, bind, get_self, lift, retool.
  simpl_state. case_new_item item Ei; [|reflexivity].
  case_setitem arr; reflexivity.
Qed.

Lemma tool_blind_streaming_try (current_text : str) :
  tool_blind (streaming_try current_text).
Proof.
  unfold streaming_try.
  destruct (find bot_token current_text) as [s|].
  - destruct (find_from eot_token current_text s) as [e|].
    + unfold complete_call. apply tool_blind_try.
      * apply tool_blind_bind; [apply tool_blind_lift|]. intros ?.
        apply tool_blind_bind; [apply tool_blind_lift|]. intros ?.
        apply tool_blind_bind; [apply tool_blind_lift|]. intros ?.
        apply tool_blind_bind; [apply tool_blind_init_complete|]. intros ?.
        apply tool_blind_bind; [apply tool_blind_ensure_tracking|]. intros ?.
        apply tool_blind_send_complete.
      * apply tool_blind_bind; [apply tool_blind_get_calls|]. intros ?.
        apply tool_blind_ret.
    + unfold partial_call. apply tool_blind_bind.
      * apply tool_blind_when, tool_blind_try; [|apply tool_blind_ret].
        apply tool_blind_bind; [apply tool_blind_lift|]. intros ?.
        apply tool_blind_bind; [apply tool_blind_lift|]. intros ?.
        apply tool_blind_bind; [apply tool_blind_lift|]. intros ?.
        apply tool_blind_bind; [apply tool_blind_init_partial|]. intros ?.
        apply tool_blind_bind; [apply tool_blind_ensure_tracking|]. intros ?.
        apply tool_blind_bind; [apply tool_blind_send_name|]. intros ?.
        apply tool_blind_stream_arguments.
      * intros ?. apply tool_blind_bind; [apply tool_blind_get_calls|].
        intros ?. apply tool_blind_ret.
  - apply tool_blind_bind; [apply tool_blind_get_calls|]. intros ?.
    apply tool_blind_ret.
Qed.

(** Two steps on attributes that differ in [_tool_indices] alone, with
    any tool lists: the results agree and the attributes still differ in
    [_tool_indices] alone. *)
Lemma step_tool_blind (new_text : str) (tools1 tools2 : list Tool)
    (st : DetectorState) (v1 v2 : option (list (str * Z))) :
  exists st' w1 w2,
    parse_streaming_increment new_text tools1 (set_tool_indices v1 st)
    = (fst (parse_streaming_increment new_text tools1 (set_tool_indices v1 st)),
       set_tool_indices w1 st')
    /\ parse_streaming_increment new_text tools2 (set_tool_indices v2 st)
       = (fst (parse_streaming_increment new_text tools1 (set_tool_indices v1 st)),
          set_tool_indices w2 st').
Proof.
  unfold parse_streaming_increment. simpl_state.
  destruct (contains bot_token (_buffer st ++ new_text)); cbn [negb].
  - set (text := _buffer st ++ new_text).
    set (base := mkFrame (set_buffer text st) []).
    assert (E : forall tools v,
               enter_try _get_tool_indices tools
                 (set_buffer text (set_tool_indices v st))
               = retool (match v with
                         | None => Some (_get_tool_indices tools)
                         | Some x => Some x
                         end) base).
    { intros tools v. unfold enter_try, retool, base. simpl_state.
      destruct v; reflexivity. }
    rewrite !E, !tool_blind_streaming_try.
    destruct (streaming_try text base) as [[r|e] fr']; cbn [fst snd retool self];
      eexists (self fr'), _, _; split; reflexivity.
  - exists (set_buffer [] st), v1, v2. split; reflexivity.
Qed.

Lemma run_tool_blind (tools1 tools2 : list Tool) (fragments : list str)
    (st : DetectorState) (v1 v2 : option (list (str * Z))) :
  fst (run_session tools1 fragments (set_tool_indices v1 st))
  = fst (run_session tools2 fragments (set_tool_indices v2 st)).
Proof.
  revert st v1 v2; induction fragments as [|f fs IH]; intros st v1 v2;
    [reflexivity|].
  cbn [run_session].
  destruct (step_tool_blind f tools1 tools2 st v1 v2) as (st' & w1 & w2 & E1 & E2).
  rewrite E1, E2. specialize (IH st' w1 w2).
  destruct (run_session tools1 fs (set_tool_indices w1 st')) as [rs1 s1].
  destruct (run_session tools2 fs (set_tool_indices w2 st')) as [rs2 s2].
  cbn [fst] in *. rewrite IH. reflexivity.
Qed.

(** X12. The incremental extractor does not consult the tool catalog:
    the results of all the steps of a session (plain text and items,
    names included) are the same whatever tool lists are passed. *)
Theorem session_ignores_tools (tools1 tools2 : list Tool)
    (fragments : list str) :
  fst (run_session tools1 fragments init_state)
  = fst (run_session tools2 fragments init_state).
Proof.
  apply (run_tool_blind tools1 tools2 fragments init_state None None).
Qed.

End Sessions.

(** ** Structural metadata *)

Lemma before_quote (n1 n2 x y : str) :
  ~ In dquote n1 -> ~ In dquote n2 ->
  n1 ++ dquote :: x = n2 ++ dquote :: y -> n1 = n2.
Proof.
  revert n2; induction n1 as [|c n1 IH]; intros [|c2 n2] H1 H2 E;
    cbn [app] in E.
  - reflexivity.
  - inversion E; subst. exfalso; apply H2; left; reflexivity.
  - inversion E; subst. exfalso; apply H1; left; reflexivity.
  - inversion E; subst. f_equal. apply (IH n2); auto.
    + intros Hin; apply H1; right; exact Hin.
    + intros Hin; apply H2; right; exact Hin.
Qed.

(** X13. For tool names without double quote, the trigger of one tool
    starts the trigger of another tool only when the names are equal:
    the triggers of different tools are different and none starts
    another. *)
Theorem trigger_prefix_free (name1 name2 : str) :
  ~ In dquote name1 -> ~ In dquote name2 ->
  startswith (si_trigger (structure_info name1))
    (si_trigger (structure_info name2)) = true ->
  name1 = name2.
Proof.
  intros H1 H2 Hs. apply startswith_iff in Hs as [r Hr].
  cbn [structure_info si_trigger] in Hr.
  rewrite <- !app_assoc in Hr. apply app_inv_head in Hr.
  symmetry. revert Hr. apply before_quote; assumption.
Qed.

(** ** Instances of the further properties *)

Lemma one_shot_calls_in_order_witness :
  let text :=
    txt " a " ++ bot_token ++ json_txt "{'name': 'f'}" ++ eot_token
    ++ bot_token ++ json_txt "{'name': 'g', 'arguments': [1]}" ++ eot_token in
  let result := Ref.one_shot [txt "f"; txt "g"] text in
  normal_text result = txt "a"
  /\ map name (calls result) = [Some (txt "f"); Some (txt "g")]
  /\ map parameters (calls result) = [txt "{}"; txt "[1]"].
Proof.
  intros text result. unfold result, Ref.one_shot.
  rewrite (@one_shot_calls_in_order Ref.Tool JsonRef.json_loads_ref
           Ref.parse_base_json text [txt "f"; txt "g"] 3
           [[mkToolCallItem 0 (Some (txt "f")) (txt "{}")];
            [mkToolCallItem 0 (Some (txt "g")) (txt "[1]")]]).
  - vm_compute. repeat split; reflexivity.
  - vm_compute; reflexivity.
  - assert (E : findall_func_call_regex text
                = [json_txt "{'name': 'f'}";
                   json_txt "{'name': 'g', 'arguments': [1]}"])
      by (vm_compute; reflexivity).
    rewrite E.
    constructor; [vm_compute; reflexivity|].
    constructor; [vm_compute; reflexivity|].
    constructor.
Defined.

Lemma one_shot_unterminated_witness :
  Ref.one_shot [txt "f"] (txt "hi " ++ bot_token ++ json_txt "{'name': 'f'")
  = mkResult (txt "hi") [].
Proof.
  apply (@one_shot_unterminated Ref.Tool JsonRef.json_loads_ref
           Ref.parse_base_json
           (txt "hi ") (json_txt "{'name': 'f'") [txt "f"]);
    vm_compute; reflexivity.
Defined.

Lemma one_shot_two_calls_witness :
  let result :=
    Ref.one_shot [txt "f"; txt "g"]
      (txt "x " ++ bot_token ++ json_txt "{'name': 'f'}" ++ eot_token
         ++ txt " and " ++ bot_token
         ++ json_txt "{'name': 'g', 'arguments': [1]}" ++ eot_token
         ++ txt " end") in
  normal_text result = txt "x"
  /\ map name (calls result) = [Some (txt "f"); Some (txt "g")]
  /\ map parameters (calls result) = [txt "{}"; txt "[1]"].
Proof.
  intros result. unfold result, Ref.one_shot.
  rewrite (@one_shot_two_calls Ref.Tool JsonRef.json_loads_ref
             Ref.parse_base_json
             (txt "x ") (json_txt "{'name': 'f'}") (txt " and ")
             (json_txt "{'name': 'g', 'arguments': [1]}") (txt " end")
             [(txt "name", JString (txt "f"))]
             [(txt "name", JString (txt "g")); (txt "arguments", JList [JInt 1])]
             [txt "f"; txt "g"]
             [mkToolCallItem 0 (Some (txt "f")) (txt "{}")]
             [mkToolCallItem 0 (Some (txt "g")) (txt "[1]")]);
    try (vm_compute; reflexivity).
  vm_compute. repeat split; reflexivity.
Defined.

Lemma streaming_step_emits_witness :
  exists st',
    Ref.step (bot_token ++ json_txt "{'name': 'f', 'arguments': {'x': 1}}")
      init_state
    = (Ok (mkResult []
             [mkToolCallItem 0 (Some (txt "f")) [];
              mkToolCallItem 0 None (json_txt "{'x': 1}")]), st')
    /\ _buffer st'
       = bot_token ++ json_txt "{'name': 'f', 'arguments': {'x': 1}}"
    /\ current_tool_id st' = 0
    /\ current_tool_name_sent st' = true
    /\ _last_arguments st' = json_txt "{'x': 1}".
Proof.
  apply (@streaming_step_emits Ref.Tool JsonRef.json_loads_ref
           JsonRef.json_dumps_ref Ref.get_tool_indices [] []
           (bot_token ++ json_txt "{'name': 'f', 'arguments': {'x': 1}}") 0
           [(txt "name", JString (txt "f"));
            (txt "arguments", JDict [(txt "x", JInt 1)])]).
  - vm_compute; reflexivity.
  - vm_compute; reflexivity.
  - vm_compute; discriminate.
  - vm_compute; reflexivity.
  - reflexivity.
Defined.

Lemma streaming_step_idle_witness :
  let st :=
    snd (Ref.session
           [bot_token ++ json_txt "{'name': 'f', 'arguments': {'x': 1}}"]) in
  exists st',
    Ref.step (txt " ") st = (Ok (mkResult [] []), st')
    /\ _buffer st' = _buffer st ++ txt " "
    /\ current_tool_id st' = current_tool_id st
    /\ current_tool_name_sent st' = true
    /\ _last_arguments st' = _last_arguments st.
Proof.
  intros st.
  apply (@streaming_step_idle Ref.Tool JsonRef.json_loads_ref
           JsonRef.json_dumps_ref Ref.get_tool_indices [] st (txt " ") 0
           [(txt "name", JString (txt "f"));
            (txt "arguments", JDict [(txt "x", JInt 1)])]).
  - vm_compute; discriminate.
  - vm_compute; reflexivity.
  - vm_compute; reflexivity.
  - vm_compute; reflexivity.
  - vm_compute; reflexivity.
  - vm_compute; discriminate.
  - vm_compute; reflexivity.
  - reflexivity.
Defined.

Lemma two_calls_need_two_steps_witness :
  let text :=
    bot_token ++ json_txt "{'name': 'f'}" ++ eot_token
    ++ bot_token ++ json_txt "{'name': 'g', 'arguments': [1]}" ++ eot_token in
  let first := Ref.step text init_state in
  let second := Ref.step (txt " and more") (snd first) in
  fst first = Ok (mkResult [] [mkToolCallItem 0 (Some (txt "f")) []])
  /\ _buffer (snd first)
     = bot_token ++ json_txt "{'name': 'g', 'arguments': [1]}" ++ eot_token
  /\ current_tool_id (snd first) = 1
  /\ fst second
     = Ok (mkResult [] [mkToolCallItem 1 (Some (txt "g")) (txt "[1]")])
  /\ _buffer (snd second) = txt " and more"
  /\ current_tool_id (snd second) = 2.
Proof.
  apply (@two_calls_need_two_steps Ref.Tool JsonRef.json_loads_ref
           JsonRef.json_dumps_ref Ref.get_tool_indices []
           (json_txt "{'name': 'f'}")
           (json_txt "{'name': 'g', 'arguments': [1]}")
           [(txt "name", JString (txt "f"))]
           [(txt "name", JString (txt "g")); (txt "arguments", JList [JInt 1])]
           (txt " and more"));
    vm_compute; reflexivity.
Defined.

Lemma undecodable_region_blocks_witness :
  let later :=
    [bot_token ++ json_txt "{'name': 'f'}" ++ eot_token; txt "bye"] in
  let st := snd (Ref.session [bot_token ++ txt "not json" ++ eot_token]) in
  Forall (eq (Ok (mkResult [] [])))
    (fst (run_session JsonRef.json_loads_ref JsonRef.json_dumps_ref
            Ref.get_tool_indices [] later st))
  /\ _buffer
       (snd (run_session JsonRef.json_loads_ref JsonRef.json_dumps_ref
               Ref.get_tool_indices [] later st))
     = _buffer st ++ concat later.
Proof.
  intros later st.
  apply (@undecodable_region_blocks Ref.Tool JsonRef.json_loads_ref
           JsonRef.json_dumps_ref Ref.get_tool_indices []
           [bot_token ++ txt "not json" ++ eot_token] later 0 28);
    vm_compute; reflexivity.
Defined.

Lemma non_object_region_echoes_witness :
  let later := [txt "a"; txt "b"] in
  let st := snd (Ref.session [bot_token ++ txt "[]" ++ eot_token]) in
  (forall n r,
      nth_error
        (fst (run_session JsonRef.json_loads_ref JsonRef.json_dumps_ref
                Ref.get_tool_indices [] later st)) n = Some r ->
      r = Ok (mkResult (_buffer st ++ concat (firstn (S n) later)) []))
  /\ _buffer
       (snd (run_session JsonRef.json_loads_ref JsonRef.json_dumps_ref
               Ref.get_tool_indices [] later st))
     = _buffer st ++ concat later.
Proof.
  intros later st.
  apply (@non_object_region_echoes Ref.Tool JsonRef.json_loads_ref
           JsonRef.json_dumps_ref Ref.get_tool_indices []
           [bot_token ++ txt "[]" ++ eot_token] later 0 22 (JList [])).
  - vm_compute; reflexivity.
  - vm_compute; reflexivity.
  - vm_compute; reflexivity.
  - intros d; discriminate.
Defined.

Lemma trigger_prefix_free_witness : txt "get_weather" = txt "get_weather".
Proof.
  apply (@trigger_prefix_free (txt "get_weather") (txt "get_weather")).
  - vm_compute. intros H. repeat (destruct H as [H|H]; [discriminate|]). exact H.
  - vm_compute. intros H. repeat (destruct H as [H|H]; [discriminate|]). exact H.
  - vm_compute; reflexivity.
Defined.
